(** * The autonomous web assistant of [src/main.py]

    A shallow embedding of the class [AutonomousWebAssistant]: the agent
    control loop ([execute_task]), the planner boundary
    ([get_next_action_from_gemini], [get_recovery_action]), the action
    executor ([execute_action] and the primitives it dispatches to), the
    locator resolver ([find_element_by_locator]), the dialog dismisser
    ([handle_dialogs]), the site crawler ([explore_website]) and the task
    summary ([generate_task_summary]).

    Conventions of the embedding.
    - Python methods become computations in the monad [M]: a state monad
      over the fields of [self] together with Python exceptions
      ([try_catch] is [try ... except]).
    - Everything outside the class (the Playwright page, the Gemini model,
      the console, the clock, the file system, [uuid], [json], [urllib]) is
      an environment [Env] over an abstract [World]; every call that can
      raise returns an [outcome].
    - Python [str] values are [string]s of 8-bit characters; [upper],
      [lower] and [strip] act on the ASCII range.
    - In the planner's decoded JSON object, the value under ["action"] is
      a string or a value of another type ([Kind]), and the value under
      ["details"] is a mapping or a value of another type
      ([DetailsValue]); absent keys are [None].  Inside [details] the
      values are read at the types the code expects of them
      (string-valued [locator], [text], [url], [direction], [type];
      integer [amount], [seconds]): every use of them lies inside a
      [try] of the executor or of a primitive.
    - Logging calls, [time.sleep] and the write-only fields
      [internal_monologue], [current_task] and [task_history] do not
      influence control flow and are left out.
    - [trace] is a ghost field: the methods append the events the
      properties below talk about, and nothing ever reads it. *)

From Stdlib Require Import ZArith String Ascii List Lia.
From stdpp Require Import gmap strings list pretty.

Local Open Scope Z_scope.
Local Open Scope nat_scope.

(** ** Python string operations used by the source *)

Definition is_lower_char (c : ascii) : bool :=
  let n := nat_of_ascii c in (97 <=? n) && (n <=? 122).

Definition is_upper_char (c : ascii) : bool :=
  let n := nat_of_ascii c in (65 <=? n) && (n <=? 90).

Definition upper_char (c : ascii) : ascii :=
  if is_lower_char c then ascii_of_nat (nat_of_ascii c - 32) else c.

Definition lower_char (c : ascii) : ascii :=
  if is_upper_char c then ascii_of_nat (nat_of_ascii c + 32) else c.

(** [s.upper()] *)
Fixpoint upper (s : string) : string :=
  match s with
  | EmptyString => EmptyString
  | String c s' => String (upper_char c) (upper s')
  end.

(** [s.lower()] *)
Fixpoint lower (s : string) : string :=
  match s with
  | EmptyString => EmptyString
  | String c s' => String (lower_char c) (lower s')
  end.

(** [s.startswith(p)] *)
Definition startswith (p s : string) : bool := String.prefix p s.

(** [s[:n]] *)
Definition slice_to (n : nat) (s : string) : string := String.substring 0 n s.

(** The characters [str.strip] removes (ASCII white space). *)
Definition is_space (c : ascii) : bool :=
  let n := nat_of_ascii c in
  ((9 <=? n) && (n <=? 13)) || ((28 <=? n) && (n <=? 32)).

Fixpoint lstrip (s : string) : string :=
  match s with
  | EmptyString => EmptyString
  | String c s' => if is_space c then lstrip s' else s
  end.

Fixpoint rstrip (s : string) : string :=
  match s with
  | EmptyString => EmptyString
  | String c s' =>
      match rstrip s' with
      | EmptyString => if is_space c then EmptyString else String c EmptyString
      | r => String c r
      end
  end.

(** [s.strip()] *)
Definition strip (s : string) : string := rstrip (lstrip s).

(** [s.split(sep)] for a non-empty separator; [skip] counts the
    characters of a separator occurrence still to be dropped. *)
Fixpoint split_go (sep : string) (skip : nat) (s : string) : list string :=
  match s with
  | EmptyString => [EmptyString]
  | String c s' =>
      match skip with
      | S k => split_go sep k s'
      | O =>
          if startswith sep s
          then EmptyString :: split_go sep (String.length sep - 1) s'
          else match split_go sep 0 s' with
               | p :: ps => String c p :: ps
               | [] => [String c EmptyString]
               end
      end
  end.

Definition split (sep s : string) : list string := split_go sep 0 s.

(** ** Exceptions and the monad of methods *)

(** The exception classes the handlers of the source tell apart;
    [OtherError] is any other subclass of [Exception] (a Playwright error,
    a transport error, [AttributeError], [TypeError], ...). *)
Inductive exn : Type :=
| JSONDecodeError (text : string)
| IndexError (text : string)
| KeyError (text : string)
| OtherError (text : string).

Inductive outcome (A : Type) : Type :=
| Ret (a : A)
| Raise (e : exn).
Arguments Ret {A} a.
Arguments Raise {A} e.

Definition is_ret {A} (o : outcome A) : bool :=
  match o with Ret _ => true | Raise _ => false end.

(** ** Data model *)

(** The [details] mapping of a proposal, at the keys the executor reads.
    The values under these keys have the types the executor expects; a
    value of another type is not represented (every use of these values
    lies inside the [try] of the executor or of one of its primitives). *)
Record Details : Type := mkDetails {
  d_locator : option string;
  d_text : option string;
  d_url : option string;
  d_direction : option string;
  d_amount : option Z;
  d_seconds : option Z;
  d_type : option string
}.

Definition no_details : Details := mkDetails None None None None None None None.

(** The value under ["action"] of a decoded planner object: a string, or
    a JSON value of another type (null, a number, a boolean, a list or an
    object), which has no method [upper] and is equal to no string. *)
Inductive Kind : Type :=
| KindStr (s : string)
| KindOther.

(** The value under ["details"]: a mapping, or a JSON value of another
    type, which has no method [get]. *)
Inductive DetailsValue : Type :=
| DetailsObject (d : Details)
| DetailsOther.

(** A decoded planner object.  [p_action = None] is an object without the
    key ["action"]; [p_details = None] one without ["details"]. *)
Record Proposal : Type := mkProposal {
  p_action : option Kind;
  p_details : option DetailsValue;
  p_reasoning : option string;
  p_message : option string
}.

(** What [json.loads] makes of a text. *)
Inductive Decoded : Type :=
| DecodeFails (text : string)       (* raises json.JSONDecodeError *)
| NotAnObject                       (* a value without [.get]: list, number, ... *)
| Object (p : Proposal).

Inductive Status : Type := SUCCESS | ERROR.

(** Message texts.  [ExnText e] is [str(e)] of a caught exception, kept
    apart from the literal texts of the source. *)
Inductive Message : Type :=
| Text (s : string)
| ExnText (e : exn).

Inductive Data : Type :=
| DataText (title url text : string)
| DataLinks (title url : string) (links : list (string * string))
| DataResults (query url : string)
    (results : list (option string * option string * option string))
| DataElementText (text : option string) (url : string).

Record ActionResult : Type := mkResult {
  status : Status;
  message : Message;
  r_title : option string;
  r_current_url : option string;
  data : option Data
}.

Definition result (s : Status) (m : Message) : ActionResult :=
  mkResult s m None None None.

(** Playwright locators are lazy descriptions of elements. *)
Inductive Locator : Type :=
| Loc (selector : string)                 (* page.locator(selector) *)
| Nth (l : Locator) (index : Z)           (* l.nth(index) *)
| First (l : Locator)                     (* l.first *)
| Sub (l : Locator) (selector : string).  (* l.locator(selector) *)

(** Values stored in the dictionaries of [action_history]. *)
Inductive Value : Type :=
| VNum (n : nat)
| VStr (s : string)
| VDetails (d : Details)
| VOther.                  (* a JSON value of another type *)

Definition kind_value (action : Kind) : Value :=
  match action with
  | KindStr a => VStr a
  | KindOther => VOther
  end.

Definition details_value (details : DetailsValue) : Value :=
  match details with
  | DetailsObject d => VDetails d
  | DetailsOther => VOther
  end.

#[global] Instance Details_eq_dec : EqDecision Details.
Proof. solve_decision. Defined.
#[global] Instance Value_eq_dec : EqDecision Value.
Proof. solve_decision. Defined.
#[global] Instance Status_eq_dec : EqDecision Status.
Proof. solve_decision. Defined.
#[global] Instance exn_eq_dec : EqDecision exn.
Proof. solve_decision. Defined.
#[global] Instance Message_eq_dec : EqDecision Message.
Proof. solve_decision. Defined.
#[global] Instance Locator_eq_dec : EqDecision Locator.
Proof. solve_decision. Defined.

(** One entry of [self.memory] (the dictionary under a UUID). *)
Record MemoryEntry : Type := mkMemory {
  m_key : string;
  m_value : string;
  m_category : string
}.

(** The result of [summarize_action_history]: the fixed text for an empty
    history, or the [(step, message)] pairs of the joined text. *)
Inductive HistorySummary : Type :=
| NoActionsYet
| RecentSteps (steps : list (Value * Value)).

(** The contents of the two prompts sent to the model. *)
Inductive Prompt : Type :=
| NextActionPrompt (task : string) (step_number : nat)
    (current_url page_title : string) (history : HistorySummary)
    (memory_context : list (string * string)) (screenshot : string)
| RecoveryPrompt (task : string) (error_message : Message)
    (current_url : string) (history : HistorySummary) (screenshot : string).

(** Ghost events. *)
Inductive Event : Type :=
| EvIteration (current_step retry_attempts : nat)  (* loop body entered *)
| EvExecuted (action_type : string) (s : Status)   (* execute_action returned *)
| EvGoto (url : string)                            (* page.goto(url) called *)
| EvDialogs                                        (* handle_dialogs entered *)
| EvCall (url : string) (depth : nat)              (* explore_website entered *)
| EvWork (url : string) (depth : nat)              (* its guard was passed *)
| EvAdd (url : string)                             (* explored_urls.add(url) *)
| EvReturn (url : string) (depth : nat).           (* explore_website left *)

#[global] Instance Event_eq_dec : EqDecision Event.
Proof. solve_decision. Defined.

(** ** The environment *)

Record Env (World : Type) : Type := mkEnv {
  (* the Playwright page *)
  page_goto : string -> World -> outcome unit * World;
  page_url : World -> string;
  page_title : World -> outcome string * World;
  page_screenshot : nat -> World -> outcome string * World;
  page_evaluate : string -> World -> outcome unit * World;
  page_wait_for_load_state : World -> outcome unit * World;
  page_wait_for_timeout : Z -> World -> outcome unit * World;
  keyboard_type : string -> World -> outcome unit * World;
  (* operations on locators *)
  loc_count : Locator -> World -> outcome nat * World;
  loc_click : Locator -> World -> outcome unit * World;
  loc_fill : Locator -> string -> World -> outcome unit * World;
  loc_text_content : Locator -> World -> outcome (option string) * World;
  loc_get_attribute : Locator -> string -> World -> outcome (option string) * World;
  loc_is_visible : Locator -> World -> outcome bool * World;
  loc_evaluate : Locator -> string -> World -> outcome unit * World;
  (* the model: generate_content(...) followed by response.text *)
  generate_content : Prompt -> World -> outcome string * World;
  (* input(...) on the console *)
  console_input : World -> outcome unit * World;
  (* how often the test [time.time() - start_time < element_search_timeout]
     succeeds for a search started in this world *)
  search_polls : World -> nat;
  (* uuid.uuid4() and the write of the memory file *)
  uuid4 : World -> string * World;
  write_memory_file : list (string * MemoryEntry) -> World -> World;
  (* the order in which a Python set of strings is iterated *)
  set_order : gset string -> list string;
  (* json.loads, urlparse(u).netloc, urljoin(base, href) *)
  json_loads : string -> Decoded;
  netloc : string -> string;
  urljoin : string -> option string -> string
}.

Arguments page_goto {World}.
Arguments page_url {World}.
Arguments page_title {World}.
Arguments page_screenshot {World}.
Arguments page_evaluate {World}.
Arguments page_wait_for_load_state {World}.
Arguments page_wait_for_timeout {World}.
Arguments keyboard_type {World}.
Arguments loc_count {World}.
Arguments loc_click {World}.
Arguments loc_fill {World}.
Arguments loc_text_content {World}.
Arguments loc_get_attribute {World}.
Arguments loc_is_visible {World}.
Arguments loc_evaluate {World}.
Arguments generate_content {World}.
Arguments console_input {World}.
Arguments search_polls {World}.
Arguments uuid4 {World}.
Arguments write_memory_file {World}.
Arguments set_order {World}.
Arguments json_loads {World}.
Arguments netloc {World}.
Arguments urljoin {World}.

(** ** The fields of [self] *)

Record State (World : Type) : Type := mkState {
  world : World;
  debug : bool;
  screenshot_count : nat;
  action_history : list (gmap string Value);
  memory : list (string * MemoryEntry);
  captcha_solving_active : bool;
  explored_urls : gset string;
  trace : list Event
}.

Arguments mkState {World}.
Arguments world {World}.
Arguments debug {World}.
Arguments screenshot_count {World}.
Arguments action_history {World}.
Arguments memory {World}.
Arguments captcha_solving_active {World}.
Arguments explored_urls {World}.
Arguments trace {World}.

(** [__init__]: the state of a fresh assistant ([load_memory] yields
    [mem]). *)
Definition initial_state {World} (w : World) (dbg : bool)
    (mem : list (string * MemoryEntry)) : State World :=
  mkState w dbg 0 [] mem false ∅ [].

(** ** The monad of methods *)

Definition M (World A : Type) : Type := State World -> outcome A * State World.

Definition ret {W A} (a : A) : M W A := fun s => (Ret a, s).

Definition raise {W A} (e : exn) : M W A := fun s => (Raise e, s).

Definition bind {W A B} (m : M W A) (k : A -> M W B) : M W B :=
  fun s =>
    match m s with
    | (Ret a, s') => k a s'
    | (Raise e, s') => (Raise e, s')
    end.

(** [try: m except Exception as e: h e] *)
Definition try_catch {W A} (m : M W A) (h : exn -> M W A) : M W A :=
  fun s =>
    match m s with
    | (Ret a, s') => (Ret a, s')
    | (Raise e, s') => h e s'
    end.

(** A computation that does not touch the state. *)
Definition lift {W A} (o : outcome A) : M W A := fun s => (o, s).

Definition gets {W A} (f : State W -> A) : M W A := fun s => (Ret (f s), s).

Definition modify {W} (f : State W -> State W) : M W unit :=
  fun s => (Ret tt, f s).

(** The handler every primitive of the executor ends with:
    [except Exception as e: return {"status": "ERROR", "message": str(e)}] *)
Definition protect {W} (m : M W ActionResult) : M W ActionResult :=
  try_catch m (fun e => ret (result ERROR (ExnText e))).

Declare Scope method_scope.
Delimit Scope method_scope with method.
Notation "x <- m ;; k" := (bind m (fun x => k))
  (at level 100, m at next level, k at level 200, right associativity)
  : method_scope.
Notation "m ;;; k" := (bind m (fun _ => k))
  (at level 100, k at level 200, right associativity) : method_scope.

Definition set_world {W} (w : W) (s : State W) : State W :=
  mkState w (debug s) (screenshot_count s) (action_history s) (memory s)
    (captcha_solving_active s) (explored_urls s) (trace s).

Definition set_screenshot_count {W} (n : nat) (s : State W) : State W :=
  mkState (world s) (debug s) n (action_history s) (memory s)
    (captcha_solving_active s) (explored_urls s) (trace s).

Definition set_action_history {W} (h : list (gmap string Value))
    (s : State W) : State W :=
  mkState (world s) (debug s) (screenshot_count s) h (memory s)
    (captcha_solving_active s) (explored_urls s) (trace s).

Definition set_memory {W} (m : list (string * MemoryEntry))
    (s : State W) : State W :=
  mkState (world s) (debug s) (screenshot_count s) (action_history s) m
    (captcha_solving_active s) (explored_urls s) (trace s).

Definition set_captcha {W} (b : bool) (s : State W) : State W :=
  mkState (world s) (debug s) (screenshot_count s) (action_history s)
    (memory s) b (explored_urls s) (trace s).

Definition set_explored_urls {W} (x : gset string) (s : State W) : State W :=
  mkState (world s) (debug s) (screenshot_count s) (action_history s)
    (memory s) (captcha_solving_active s) x (trace s).

Definition set_trace {W} (t : list Event) (s : State W) : State W :=
  mkState (world s) (debug s) (screenshot_count s) (action_history s)
    (memory s) (captcha_solving_active s) (explored_urls s) t.

(** A call into the environment. *)
Definition call {W A} (op : W -> outcome A * W) : M W A :=
  fun s => let (r, w) := op (world s) in (r, set_world w s).

(** Ghost: append an event to the trace. *)
Definition emit {W} (e : Event) : M W unit :=
  modify (fun s => set_trace (trace s ++ [e]) s).

(** Python truthiness of an optional string ([None] and [""] are false). *)
Definition truthy (o : option string) : bool :=
  match o with
  | Some (String _ _) => true
  | _ => false
  end.

(** [f"{x}"] of an optional string. *)
Definition str_opt (o : option string) : string :=
  match o with
  | Some s => s
  | None => "None"
  end.

(** [old.join(...)]-free form of [s.replace(old, "")]. *)
Definition remove_all (old s : string) : string :=
  String.concat "" (split old s).

(** [d[k] = v] on an insertion-ordered dictionary. *)
Fixpoint dict_set {V} (k : string) (v : V) (d : list (string * V))
    : list (string * V) :=
  match d with
  | [] => [(k, v)]
  | (k', v') :: d' =>
      if bool_decide (k' = k) then (k, v) :: d' else (k', v') :: dict_set k v d'
  end.

(** [l[-n:]] *)
Definition last_n {A} (n : nat) (l : list A) : list A :=
  drop (length l - n) l.

Definition max_steps : nat := 30.
Definition exploration_depth : nat := 2.
Definition max_retry_attempts : nat := 3.

Definition dismiss_selectors : list string :=
  [ "#L2AGLb"; "button[aria-label='Accept all']"; "button[aria-label='Accept']";
    "text=Accept"; "text=Accept all"; "text=I agree"; "text=Agree";
    "text=Allow"; "text=Close"; "text=No thanks"; "text=Got it";
    ".modal button"; ".popup button"; "[aria-label='Close']";
    ".cookie-banner button"; "#consent-banner button"; ".consent button" ].

Definition input_locators : list string :=
  [ "input"; "textarea"; "[contenteditable='true']"; "[role='textbox']" ].

Definition search_result_selectors : list string :=
  [ "div.g"; "div[data-sokoban-container]"; "div.v7W49e" ].

(** The one-character string holding a double quote. *)
Definition dquote : string := String (ascii_of_nat 34) EmptyString.

(** The fallback locators built from [text] and [index]. *)
Definition text_locator_strategies (text : string) (index : Z) : list string :=
  [ "text=" +:+ text;
    "text=" +:+ text +:+ ">>nth=" +:+ pretty index;
    "text=regexp:^" +:+ text +:+ "$";
    "text=*" +:+ text;
    "text=regexp:" +:+ text;
    "text=iregex:" +:+ text;
    "text='" +:+ text +:+ "'";
    "text=" +:+ dquote +:+ text +:+ dquote;
    "text=localized:" +:+ dquote +:+ text +:+ dquote ].

(** ** The methods *)

Section Assistant.

Context {World : Type} (env : Env World).

Local Open Scope method_scope.

(** [take_screenshot]: the file name stands for the screenshot. *)
Definition take_screenshot : M World string :=
  n <- gets screenshot_count ;;
  modify (set_screenshot_count (n + 1)) ;;;
  call (page_screenshot env (n + 1)).

(** [save_memory] swallows every error of the write. *)
Definition save_memory : M World unit :=
  modify (fun s => set_world (write_memory_file env (memory s) (world s)) s).

Definition add_memory (key value category : string) : M World string :=
  memory_id <- call (fun w => let (u, w') := uuid4 env w in (Ret u, w')) ;;
  modify (fun s =>
    set_memory (dict_set memory_id (mkMemory key value category) (memory s)) s) ;;;
  save_memory ;;;
  ret memory_id.

Definition retrieve_memory (key : string) (category : option string)
    (mem : list (string * MemoryEntry)) : list MemoryEntry :=
  List.filter
    (fun e => String.eqb (m_key e) key &&
              match category with
              | None => true
              | Some c => String.eqb (m_category e) c
              end)
    (map snd mem).

(** [handle_dialogs]: the loop over [dismiss_selectors]; the inner
    computation answers whether the loop is left by [break]. *)
Fixpoint dismiss_loop (selectors : list string) : M World unit :=
  match selectors with
  | [] => ret tt
  | selector :: rest =>
      stop <- try_catch
        (let dialog_locator := Loc selector in
         n <- call (loc_count env dialog_locator) ;;
         if 0 <? n then
           visible <- call (loc_is_visible env dialog_locator) ;;
           if (visible : bool) then
             call (loc_click env dialog_locator) ;;; ret true
           else ret false
         else ret false)
        (fun _ => ret false) ;;
      if (stop : bool) then ret tt else dismiss_loop rest
  end.

Definition handle_dialogs : M World unit :=
  emit EvDialogs ;;; dismiss_loop dismiss_selectors.

Definition has_scheme (url : string) : bool :=
  startswith "http://" url || startswith "https://" url.

Definition navigate_to_url (url : string) : M World ActionResult :=
  if bool_decide (url = EmptyString) then
    ret (result ERROR (Text "No URL provided"))
  else
    protect
      (let url := if has_scheme url then url else "https://" +:+ url in
       emit (EvGoto url) ;;;
       call (page_goto env url) ;;;
       handle_dialogs ;;;
       dbg <- gets debug ;;
       (if (dbg : bool) then take_screenshot ;;; ret tt else ret tt) ;;;
       title <- call (page_title env) ;;
       current <- gets (fun s => page_url env (world s)) ;;
       ret (mkResult SUCCESS (Text ("Navigated to " +:+ url))
              (Some title) (Some current) None)).

(** The choice between [locator.nth(index)] and [locator.first]. *)
Definition select_match (locator : Locator) (count : nat) (index : Z) : Locator :=
  if ((0 <=? index)%Z && (index <? Z.of_nat count)%Z)%bool
  then Nth locator index
  else First locator.

Definition highlight (colour : string) : string :=
  "element => { element.style.border = '3px solid " +:+ colour +:+ "'; }".

(** One query of a locator inside [find_element_by_locator]: [Some] is the
    [return] of the element. *)
Definition probe (selector : string) (index : Z) (colour : string)
    : M World (option Locator) :=
  let locator := Loc selector in
  count <- call (loc_count env locator) ;;
  if 0 <? count then
    let element_locator := select_match locator count index in
    dbg <- gets debug ;;
    (if (dbg : bool)
     then call (loc_evaluate env element_locator (highlight colour))
     else ret tt) ;;;
    ret (Some element_locator)
  else ret None.

Fixpoint probe_strategies (strategies : list string) (index : Z)
    : M World (option Locator) :=
  match strategies with
  | [] => ret None
  | strategy :: rest =>
      found <- probe strategy index "blue" ;;
      match found with
      | Some element_locator => ret (Some element_locator)
      | None => probe_strategies rest index
      end
  end.

(** The body of the [while] loop of [find_element_by_locator]. *)
Definition find_attempt (locator_str text : option string) (index : Z)
    : M World (option Locator) :=
  found <-
    (if truthy locator_str
     then probe (default EmptyString locator_str) index "red"
     else ret None) ;;
  match found with
  | Some element_locator => ret (Some element_locator)
  | None =>
      if truthy text
      then probe_strategies
             (text_locator_strategies (default EmptyString text) index) index
      else ret None
  end.

(** The [while] loop: [polls] is the number of times its time test
    succeeds; an exception inside an attempt is swallowed and the loop
    goes on. *)
Fixpoint find_loop (polls : nat) (locator_str text : option string) (index : Z)
    : M World (option Locator) :=
  match polls with
  | O => ret None
  | S polls' =>
      found <- try_catch (find_attempt locator_str text index)
                 (fun _ => ret None) ;;
      match found with
      | Some element_locator => ret (Some element_locator)
      | None => find_loop polls' locator_str text index
      end
  end.

Definition find_element_by_locator (locator_str text : option string)
    (index : Z) : M World (option Locator) :=
  polls <- gets (fun s => search_polls env (world s)) ;;
  find_loop polls locator_str text index.

Definition click_element (locator_str text : option string) (index : Z)
    : M World ActionResult :=
  protect
    (element_locator <- find_element_by_locator locator_str text index ;;
     match element_locator with
     | Some el =>
         call (loc_click env el) ;;;
         call (page_wait_for_load_state env) ;;;
         dbg <- gets debug ;;
         (if (dbg : bool) then take_screenshot ;;; ret tt else ret tt) ;;;
         title <- call (page_title env) ;;
         current <- gets (fun s => page_url env (world s)) ;;
         ret (mkResult SUCCESS
                (Text ("Clicked on element with locator: '" +:+ str_opt locator_str
                       +:+ "' or text: '" +:+ str_opt text +:+ "'"))
                (Some title) (Some current) None)
     | None =>
         ret (result ERROR
                (Text ("Element not found for click: locator='"
                       +:+ str_opt locator_str +:+ "', text='"
                       +:+ str_opt text +:+ "'")))
     end).

(** The search for an input element in [type_text]. *)
Fixpoint first_input (selectors : list string) : M World (option Locator) :=
  match selectors with
  | [] => ret None
  | sel :: rest =>
      n <- call (loc_count env (Loc sel)) ;;
      if 0 <? n then ret (Some (First (Loc sel))) else first_input rest
  end.

Definition type_text (locator_str text : option string) : M World ActionResult :=
  if negb (truthy text) then
    ret (result ERROR (Text "No text provided to type"))
  else
    let text := default EmptyString text in
    protect
      (element_locator <-
         (if truthy locator_str
          then find_element_by_locator locator_str None 0%Z
          else ret None) ;;
       element_locator <-
         match element_locator with
         | Some el => ret (Some el)
         | None => first_input input_locators
         end ;;
       match element_locator with
       | Some el =>
           call (loc_fill env el text) ;;;
           ret (result SUCCESS
                  (Text ("Typed '" +:+ text
                         +:+ "' into input field using locator: '"
                         +:+ str_opt locator_str +:+ "'")))
       | None =>
           call (keyboard_type env text) ;;;
           ret (result SUCCESS
                  (Text ("Typed '" +:+ text
                         +:+ "' into active element (fallback)")))
       end).

Definition scroll_script (direction : string) (amount : Z) : option string :=
  let d := lower direction in
  if String.eqb d "down" then
    Some ("window.scrollBy(0, " +:+ pretty amount +:+ ")")
  else if String.eqb d "up" then
    Some ("window.scrollBy(0, -" +:+ pretty amount +:+ ")")
  else if String.eqb d "top" then
    Some "window.scrollTo(0, 0)"
  else if String.eqb d "bottom" then
    Some "window.scrollTo(0, document.body.scrollHeight)"
  else if String.eqb d "right" then
    Some ("window.scrollBy(" +:+ pretty amount +:+ ", 0)")
  else if String.eqb d "left" then
    Some ("window.scrollBy(-" +:+ pretty amount +:+ ", 0)")
  else None.

Definition scroll_page (direction : string) (amount : Z) : M World ActionResult :=
  protect
    (match scroll_script direction amount with
     | Some js => call (page_evaluate env js)
     | None => ret tt
     end ;;;
     dbg <- gets debug ;;
     (if (dbg : bool) then take_screenshot ;;; ret tt else ret tt) ;;;
     ret (result SUCCESS (Text ("Scrolled " +:+ direction)))).

Definition wait_for (seconds : Z) : M World ActionResult :=
  protect
    (call (page_wait_for_timeout env (seconds * 1000)%Z) ;;;
     ret (result SUCCESS
            (Text ("Waited for " +:+ pretty seconds +:+ " seconds")))).

Definition text_limit : nat := 2000.

(** [text_content[:2000] + "..." if len(text_content) > 2000 else text_content] *)
Definition main_text (text_content : string) : string :=
  if text_limit <? String.length text_content
  then slice_to text_limit text_content +:+ "..."
  else text_content.

(** [len(text_content)] raises on [None]. *)
Definition require_text (text_content : option string) : M World string :=
  match text_content with
  | Some t => ret t
  | None => raise (OtherError "object of type 'NoneType' has no len()")
  end.

Definition extract_text (locator_str : option string) : M World ActionResult :=
  found <-
    (if truthy locator_str then
       element_locator <- find_element_by_locator locator_str None 0%Z ;;
       match element_locator with
       | Some el =>
           text_content <- call (loc_text_content env el) ;;
           ret (inl text_content)
       | None =>
           ret (inr (result ERROR
                       (Text ("Could not find element with locator: "
                              +:+ str_opt locator_str))))
       end
     else
       text_content <- call (loc_text_content env (Loc "body")) ;;
       ret (inl text_content)) ;;
  match found with
  | inr early => ret early
  | inl text_content =>
      t <- require_text text_content ;;
      title <- call (page_title env) ;;
      url <- gets (fun s => page_url env (world s)) ;;
      ret (mkResult SUCCESS (Text "Extracted text content") None None
             (Some (DataText title url (main_text t))))
  end.

(** The loop [for i in range(min(link_count, 20))] of the links branch. *)
Fixpoint collect_links (indices : list nat) (links : list (string * string))
    : M World (list (string * string)) :=
  match indices with
  | [] => ret links
  | i :: rest =>
      links <- try_catch
        (let link_element := Nth (Loc "a") (Z.of_nat i) in
         href <- call (loc_get_attribute env link_element "href") ;;
         text_content <- call (loc_text_content env link_element) ;;
         match text_content with
         | None =>
             raise (OtherError "'NoneType' object has no attribute 'strip'")
         | Some t =>
             let text := strip t in
             if truthy href && (1 <? String.length text)
             then ret (links ++ [(default EmptyString href, text)])
             else ret links
         end)
        (fun _ => ret links) ;;
      collect_links rest links
  end.

Definition extract_links : M World ActionResult :=
  link_count <- call (loc_count env (Loc "a")) ;;
  links <- collect_links (seq 0 (Nat.min link_count 20)) [] ;;
  title <- call (page_title env) ;;
  url <- gets (fun s => page_url env (world s)) ;;
  ret (mkResult SUCCESS
         (Text ("Extracted " +:+ pretty (length links) +:+ " links"))
         None None (Some (DataLinks title url links))).

Definition SearchResult : Type := (option string * option string * option string)%type.

(** The loop [for i in range(min(result_count, 10))]. *)
Fixpoint collect_results (container : Locator) (indices : list nat)
    (results : list SearchResult) : M World (list SearchResult) :=
  match indices with
  | [] => ret results
  | i :: rest =>
      results <- try_catch
        (let result_element := Nth container (Z.of_nat i) in
         let title_locator := Sub result_element "h3" in
         title <- call (loc_text_content env title_locator) ;;
         let link_locator := Sub title_locator "xpath=./ancestor::a" in
         link <- call (loc_get_attribute env link_locator "href") ;;
         let desc_locator := Sub result_element "div.VwiC3b, div.s" in
         n <- call (loc_count env desc_locator) ;;
         description <-
           (if 0 <? n then call (loc_text_content env desc_locator)
            else ret (Some EmptyString)) ;;
         ret (results ++ [(title, link, description)]))
        (fun _ => ret results) ;;
      collect_results container rest results
  end.

(** The loop over [search_result_selectors]. *)
Fixpoint probe_containers (selectors : list string) (results : list SearchResult)
    : M World (list SearchResult) :=
  match selectors with
  | [] => ret results
  | selector :: rest =>
      let result_elements_locator := Loc selector in
      result_count <- call (loc_count env result_elements_locator) ;;
      if 0 <? result_count then
        results <- collect_results result_elements_locator
                     (seq 0 (Nat.min result_count 10)) results ;;
        match results with
        | _ :: _ => ret results
        | [] => probe_containers rest results
        end
      else probe_containers rest results
  end.

Definition extract_search_results : M World ActionResult :=
  results <- probe_containers search_result_selectors [] ;;
  title <- call (page_title env) ;;
  url <- gets (fun s => page_url env (world s)) ;;
  ret (mkResult SUCCESS
         (Text ("Extracted " +:+ pretty (length results) +:+ " search results"))
         None None
         (Some (DataResults (remove_all " - Google Search" title) url results))).

Definition extract_element_text (locator_str : option string)
    : M World ActionResult :=
  element_locator <- find_element_by_locator locator_str None 0%Z ;;
  match element_locator with
  | Some el =>
      text_content <- call (loc_text_content env el) ;;
      url <- gets (fun s => page_url env (world s)) ;;
      ret (mkResult SUCCESS
             (Text ("Extracted text from element with locator '"
                    +:+ str_opt locator_str +:+ "'"))
             None None (Some (DataElementText text_content url)))
  | None =>
      ret (result ERROR
             (Text ("Element with locator '" +:+ str_opt locator_str
                    +:+ "' not found for extraction.")))
  end.

Definition extract_content (extract_type : string) (locator_str : option string)
    : M World ActionResult :=
  protect
    (if String.eqb extract_type "text" then extract_text locator_str
     else if String.eqb extract_type "links" then extract_links
     else if String.eqb extract_type "search_results" then extract_search_results
     else if String.eqb extract_type "element_text" && truthy locator_str
     then extract_element_text locator_str
     else ret (result ERROR (Text ("Unknown extract type: " +:+ extract_type)))).

(** [details.get(key)]: a value that is no mapping has no [get]. *)
Definition details_get {A} (details : DetailsValue) (key : Details -> option A)
    : M World (option A) :=
  match details with
  | DetailsObject d => ret (key d)
  | DetailsOther => raise (OtherError "object has no attribute 'get'")
  end.

(** The [if/elif] chain of [execute_action]. *)
Definition dispatch (action_type : string) (details : DetailsValue)
    : M World ActionResult :=
  if String.eqb action_type "CLICK" then
    locator_str <- details_get details d_locator ;;
    text <- details_get details d_text ;;
    click_element (Some (default EmptyString locator_str))
                  (Some (default EmptyString text)) 0%Z
  else if String.eqb action_type "TYPE" then
    locator_str <- details_get details d_locator ;;
    text <- details_get details d_text ;;
    type_text (Some (default EmptyString locator_str))
              (Some (default EmptyString text))
  else if String.eqb action_type "NAVIGATE" then
    url <- details_get details d_url ;;
    navigate_to_url (default EmptyString url)
  else if String.eqb action_type "SCROLL" then
    direction <- details_get details d_direction ;;
    amount <- details_get details d_amount ;;
    scroll_page (default "down" direction) (default 300%Z amount)
  else if String.eqb action_type "WAIT" then
    seconds <- details_get details d_seconds ;;
    wait_for (default 3%Z seconds)
  else if String.eqb action_type "EXTRACT" then
    extract_type <- details_get details d_type ;;
    locator_str <- details_get details d_locator ;;
    extract_content (default "text" extract_type) locator_str
  else if String.eqb action_type "EXPLORE_WEBSITE" then
    ret (result SUCCESS (Text "Website exploration action acknowledged."))
  else if existsb (String.eqb action_type)
            ["TASK_COMPLETE"; "ABORT"; "MANUAL_CAPTCHA"; "RETRY"] then
    ret (result SUCCESS (Text "Action acknowledged"))
  else
    ret (result ERROR (Text ("Unknown action type: " +:+ action_type))).

(** [action_data.get("action", "").upper()], which the source evaluates
    before it enters its [try]. *)
Definition kind_upper (action : option Kind) : M World string :=
  match action with
  | None => ret (upper EmptyString)
  | Some (KindStr a) => ret (upper a)
  | Some KindOther => raise (OtherError "object has no attribute 'upper'")
  end.

Definition execute_action (action_data : Proposal) : M World ActionResult :=
  action_type <- kind_upper (p_action action_data) ;;
  let details := default (DetailsObject no_details) (p_details action_data) in
  r <- protect (dispatch action_type details) ;;
  emit (EvExecuted action_type (status r)) ;;;
  ret r.

(** [for x in xs: body x] *)
Fixpoint for_each {A} (body : A -> M World unit) (xs : list A) : M World unit :=
  match xs with
  | [] => ret tt
  | x :: rest => body x ;;; for_each body rest
  end.

(** The loop [for i in range(links_count)] of [explore_website]. *)
Fixpoint collect_urls (url : string) (indices : list nat)
    (urls_to_explore : gset string) : M World (gset string) :=
  match indices with
  | [] => ret urls_to_explore
  | i :: rest =>
      urls_to_explore <- try_catch
        (let link_element := Nth (Loc "a") (Z.of_nat i) in
         href <- call (loc_get_attribute env link_element "href") ;;
         let absolute_url := urljoin env url href in
         if negb (bool_decide (absolute_url = EmptyString)) && has_scheme absolute_url
         then
           explored <- gets explored_urls ;;
           if String.eqb (netloc env absolute_url) (netloc env url)
              && negb (bool_decide (absolute_url ∈ explored))
           then ret ({[absolute_url]} ∪ urls_to_explore)
           else ret urls_to_explore
         else ret urls_to_explore)
        (fun _ => ret urls_to_explore) ;;
      collect_urls url rest urls_to_explore
  end.

(** The part of a frame of [explore_website] between navigation and the
    recursive calls. *)
Definition explore_page (url : string) : M World (gset string) :=
  take_screenshot ;;;
  extract_result <- extract_content "text" None ;;
  match status extract_result with
  | SUCCESS =>
      match data extract_result with
      | Some (DataText _ _ text) =>
          add_memory (netloc env url) (slice_to 500 text) "website" ;;; ret tt
      | _ => raise (KeyError "data")
      end
  | ERROR => ret tt
  end ;;;
  links_count <- call (loc_count env (Loc "a")) ;;
  collect_urls url (seq 0 links_count) ∅.

(** The [try] block of [explore_website]; [recur] is the recursive call
    on a link. *)
Definition explore_body (recur : string -> M World unit) (url : string)
    : M World unit :=
  try_catch
    (nav_status <- navigate_to_url url ;;
     match status nav_status with
     | ERROR => ret tt
     | SUCCESS =>
         emit (EvAdd url) ;;;
         modify (fun s => set_explored_urls ({[url]} ∪ explored_urls s) s) ;;;
         urls_to_explore <- explore_page url ;;
         for_each recur (set_order env urls_to_explore)
     end)
    (fun _ => ret tt).

(** [explore_website], by recursion on a bound [budget] of the nesting of
    its frames; the guard of the source is tested in every frame, and a
    frame that passes it with the bound used up raises. *)
Fixpoint explore_frames (budget : nat) (url : string)
    (max_depth current_depth : nat) : M World unit :=
  emit (EvCall url current_depth) ;;;
  explored <- gets explored_urls ;;
  if (max_depth <=? current_depth) || bool_decide (url ∈ explored) then
    emit (EvReturn url current_depth)
  else
    match budget with
    | O => raise (OtherError "recursion budget exhausted")
    | S budget' =>
        emit (EvWork url current_depth) ;;;
        explore_body
          (fun next_url =>
             explore_frames budget' next_url max_depth (current_depth + 1))
          url ;;;
        emit (EvReturn url current_depth)
    end.

Definition explore_website (url : string) (max_depth current_depth : nat)
    : M World unit :=
  explore_frames (max_depth - current_depth) url max_depth current_depth.

(** ** The planner boundary *)

Fixpoint summarize_entries (recent_actions : list (gmap string Value))
    : M World (list (Value * Value)) :=
  match recent_actions with
  | [] => ret []
  | action_data :: rest =>
      match action_data !! "action" with
      | None => raise (KeyError "action")
      | Some action_type =>
          let message := default action_type (action_data !! "message") in
          match action_data !! "step" with
          | None => raise (KeyError "step")
          | Some step =>
              summary <- summarize_entries rest ;;
              ret ((step, message) :: summary)
          end
      end
  end.

Definition summarize_action_history : M World HistorySummary :=
  history <- gets action_history ;;
  match history with
  | [] => ret NoActionsYet
  | _ =>
      summary <- summarize_entries (last_n 5 history) ;;
      ret (RecentSteps summary)
  end.

(** The removal of the code fence around the response. *)
Definition strip_fences (response_text : string) : outcome string :=
  if startswith "```json" response_text then
    match split "```json" response_text !! 1 with
    | None => Raise (IndexError "list index out of range")
    | Some rest =>
        match split "```" rest !! 0 with
        | None => Raise (IndexError "list index out of range")
        | Some json_text => Ret (strip json_text)
        end
    end
  else if startswith "```" response_text then
    match split "```" response_text !! 1 with
    | None => Raise (IndexError "list index out of range")
    | Some json_text => Ret (strip json_text)
    end
  else Ret response_text.

(** [json.loads] followed by the first [.get] on its result. *)
Definition decode (json_text : string) : M World Proposal :=
  match json_loads env json_text with
  | DecodeFails text => raise (JSONDecodeError text)
  | NotAnObject => raise (OtherError "object has no attribute 'get'")
  | Object action_data => ret action_data
  end.

Definition wait_details (seconds : Z) : Details :=
  mkDetails None None None None None (Some seconds) None.

Definition wait_after_decode_failure : Proposal :=
  mkProposal (Some (KindStr "WAIT")) (Some (DetailsObject (wait_details 5)))
    (Some "JSON parsing failed. Waiting and will re-prompt.")
    (Some "Waiting for 5 seconds due to API response error. Re-prompting.").

Definition wait_after_api_failure : Proposal :=
  mkProposal (Some (KindStr "WAIT")) (Some (DetailsObject (wait_details 10)))
    (Some "Gemini API call failed. Waiting and will re-prompt.")
    (Some "Waiting for 10 seconds due to API error. Re-prompting.").

(** The part of [get_next_action_from_gemini] before its [try]: the
    memories and the prompt. *)
Definition next_action_prompt (screenshot task : string) (step_number : nat)
    : M World Prompt :=
  mem <- gets memory ;;
  current_url <- gets (fun s => page_url env (world s)) ;;
  let relevant_memories :=
    last_n 5 (map snd mem)
    ++ retrieve_memory (netloc env current_url) (Some "website") mem in
  let memory_context := map (fun m => (m_key m, m_value m)) relevant_memories in
  page_title <- call (page_title env) ;;
  history <- summarize_action_history ;;
  ret (NextActionPrompt task step_number current_url page_title
         history memory_context screenshot).

(** The inner [try] of both planner methods: fences, [json.loads]. *)
Definition parse_response (response : string) : M World Proposal :=
  let response_text := strip response in
  json_text <- lift (strip_fences response_text) ;;
  decode json_text.

(** The [try] of [get_next_action_from_gemini]: a failure to decode
    yields the wait of 5 seconds, any other failure the wait of 10. *)
Definition ask_next_action (prompt : Prompt) : M World Proposal :=
  try_catch
    (response <- call (generate_content env prompt) ;;
     try_catch (parse_response response)
       (fun e =>
          match e with
          | JSONDecodeError _ => ret wait_after_decode_failure
          | _ => raise e
          end))
    (fun _ => ret wait_after_api_failure).

Definition get_next_action_from_gemini (screenshot task : string)
    (step_number : nat) : M World Proposal :=
  prompt <- next_action_prompt screenshot task step_number ;;
  ask_next_action prompt.

Definition abort_proposal (reasoning : string) : Proposal :=
  mkProposal (Some (KindStr "ABORT")) None (Some reasoning) None.

(** The text of the exception in the reasoning of the second proposal is
    left out. *)
Definition get_recovery_action (screenshot : string) (error_message : Message)
    (task : string) : M World Proposal :=
  current_url <- gets (fun s => page_url env (world s)) ;;
  history <- summarize_action_history ;;
  let prompt := RecoveryPrompt task error_message current_url history screenshot in
  try_catch
    (response <- call (generate_content env prompt) ;;
     try_catch (parse_response response)
       (fun e =>
          match e with
          | JSONDecodeError _ | IndexError _ =>
              ret (abort_proposal "Could not parse recovery action from Gemini.")
          | _ => raise e
          end))
    (fun e =>
       ret (abort_proposal "API error during recovery action request")).

(** ** The task summary and the control loop *)

Record TaskSummary : Type := mkSummary {
  successful_steps : nat;
  error_steps : nat;
  manual_captcha_steps : nat;
  exploration_steps : nat;
  final_url : string;
  final_title : string;
  exploration_note : bool;
  excerpt : option string
}.

Record TaskResult : Type := mkTaskResult {
  tr_task : string;
  tr_steps : nat;
  tr_actions : list (gmap string Value);
  tr_summary : TaskSummary
}.

(** [action.get('action') == name] and [action.get('status') == name] *)
Definition action_is (name : string) (action : gmap string Value) : bool :=
  bool_decide (action !! "action" = Some (VStr name)).

Definition status_is (name : string) (action : gmap string Value) : bool :=
  bool_decide (action !! "status" = Some (VStr name)).

Definition count_steps (p : gmap string Value -> bool)
    (history : list (gmap string Value)) : nat :=
  length (List.filter p history).

Definition counts_as_success (action : gmap string Value) : bool :=
  negb (existsb (fun name => action_is name action)
          ["TASK_COMPLETE"; "ABORT"; "MANUAL_CAPTCHA"; "RETRY"; "EXPLORE_WEBSITE"])
  && status_is "SUCCESS" action.

Definition generate_task_summary (task : string) : M World TaskSummary :=
  history <- gets action_history ;;
  let successful := count_steps counts_as_success history in
  let errors := count_steps (status_is "ERROR") history in
  let captchas := count_steps (action_is "MANUAL_CAPTCHA") history in
  let explorations := count_steps (action_is "EXPLORE_WEBSITE") history in
  take_screenshot ;;;
  url <- gets (fun s => page_url env (world s)) ;;
  title <- call (page_title env) ;;
  page_excerpt <- try_catch
    (extract_result <- extract_content "text" None ;;
     match status extract_result with
     | SUCCESS =>
         match data extract_result with
         | Some (DataText _ _ text) => ret (Some (slice_to 200 text +:+ "..."))
         | _ => raise (KeyError "data")
         end
     | ERROR => ret None
     end)
    (fun _ => ret None) ;;
  ret (mkSummary successful errors captchas explorations url title
         (0 <? explorations) page_excerpt).

(** How an iteration of the [while] loop ends: [continue] or the end of
    the body (with the value of [retry_attempts]), or [break]. *)
Inductive Control : Type :=
| Continue (retry_attempts : nat)
| Break.

(** [d["action"]] of a decoded object. *)
Definition action_of (p : Proposal) : M World Kind :=
  match p_action p with
  | Some a => ret a
  | None => raise (KeyError "action")
  end.

(** [action == name] for the value under ["action"]. *)
Definition kind_is (action : Kind) (name : string) : bool :=
  match action with
  | KindStr a => String.eqb a name
  | KindOther => false
  end.

Definition history_entry (current_step : nat) (action : Kind)
    (details : DetailsValue) (filename : string) : gmap string Value :=
  {[ "step" := VNum current_step;
     "action" := kind_value action;
     "details" := details_value details;
     "screenshot" := VStr filename ]}.

(** What follows an [ERROR] of the executor. *)
Definition recover (user_task : string) (st : ActionResult) : M World Control :=
  recovery_screenshot <- take_screenshot ;;
  recovery_action <- get_recovery_action recovery_screenshot (message st) user_task ;;
  kind <- action_of recovery_action ;;
  if kind_is kind "ABORT" then ret Break
  else
    recovery_status <- execute_action recovery_action ;;
    match status recovery_status with
    | ERROR => ret Break
    | SUCCESS => ret (Continue 0)
    end.

(** The [if/elif/else] chain of the loop body on the kind of the
    proposal, with what follows it. *)
Definition act_on (user_task : string) (action : Kind)
    (next_action : Proposal) (retry_attempts : nat) : M World Control :=
  if kind_is action "TASK_COMPLETE" then ret Break
  else if kind_is action "MANUAL_CAPTCHA" then
    modify (set_captcha true) ;;;
    call (console_input env) ;;;
    modify (set_captcha false) ;;;
    ret (Continue retry_attempts)
  else if kind_is action "EXPLORE_WEBSITE" then
    url <- gets (fun s => page_url env (world s)) ;;
    explore_website url exploration_depth 0 ;;;
    ret (Continue retry_attempts)
  else if kind_is action "RETRY" then
    let retry_attempts := retry_attempts + 1 in
    if max_retry_attempts <? retry_attempts then ret Break
    else ret (Continue retry_attempts)
  else
    st <- execute_action next_action ;;
    match status st with
    | ERROR => recover user_task st
    | SUCCESS => ret (Continue 0)
    end.

(** The record appended to [action_history]. *)
Definition record_step (current_step : nat) (action : Kind)
    (next_action : Proposal) (filename : string) : M World unit :=
  modify (fun s =>
    set_action_history
      (action_history s ++
       [history_entry current_step action
          (default (DetailsObject no_details) (p_details next_action))
          filename]) s).

(** The body of the [while] loop, [current_step] already incremented. *)
Definition task_iteration (user_task : string)
    (current_step retry_attempts : nat) : M World Control :=
  emit (EvIteration current_step retry_attempts) ;;;
  filename <- take_screenshot ;;
  next_action <- get_next_action_from_gemini filename user_task current_step ;;
  action <- action_of next_action ;;
  record_step current_step action next_action filename ;;;
  act_on user_task action next_action retry_attempts.

(** [while current_step < max_steps], with [fuel] bounding the number of
    iterations; the result is the final [current_step], or [None] when the
    fuel ran out first. *)
Fixpoint task_loop (fuel : nat) (user_task : string)
    (current_step retry_attempts : nat) : M World (option nat) :=
  if current_step <? max_steps then
    match fuel with
    | O => ret None
    | S fuel' =>
        let current_step := current_step + 1 in
        control <- task_iteration user_task current_step retry_attempts ;;
        match control with
        | Break => ret (Some current_step)
        | Continue retry_attempts =>
            task_loop fuel' user_task current_step retry_attempts
        end
    end
  else ret (Some current_step).

(** The test on the last entry of the history before the loop. *)
Definition needs_start_page : M World bool :=
  history <- gets action_history ;;
  match last history with
  | None => ret true
  | Some entry =>
      match entry !! "action" with
      | None => raise (KeyError "action")
      | Some a => ret (bool_decide (a = VStr "TASK_COMPLETE"))
      end
  end.

Definition execute_task (user_task : string) : M World (option TaskResult) :=
  start <- needs_start_page ;;
  (if (start : bool)
   then navigate_to_url "https://www.google.com" ;;; ret tt
   else ret tt) ;;;
  steps <- task_loop max_steps user_task 0 0 ;;
  match steps with
  | None => ret None
  | Some current_step =>
      summary <- generate_task_summary user_task ;;
      actions <- gets action_history ;;
      ret (Some (mkTaskResult user_task current_step actions summary))
  end.

End Assistant.

(** ** A small concrete environment

    A world of three pages under one host, a scripted model and switches
    for faults of the driver; the statements below are run on it. *)

Module Demo.

Record World : Type := mkWorld {
  current : string;                 (* the URL the page shows *)
  script : list (outcome string);   (* the answers of the model, in order *)
  body : string;                    (* text of the page body *)
  wait_fails : bool                 (* page.wait_for_timeout raises *)
}.

Definition home : string := "https://a.test/".

Definition site_links (page : string) : list (option string) :=
  if String.eqb page home then
    [Some "https://a.test/x"; Some home; None]
  else if String.eqb page "https://a.test/x" then
    [Some home; Some "https://a.test/y"]
  else [].

Definition matches (l : Locator) (w : World) : nat :=
  match l with
  | Loc sel =>
      if String.eqb sel "a" then length (site_links (current w))
      else if String.eqb sel "button" then 3
      else if String.eqb sel "body" then 1
      else 0
  | _ => 0
  end.

Definition attribute (l : Locator) (w : World) : option string :=
  match l with
  | Nth (Loc _) i => mjoin (site_links (current w) !! Z.to_nat i)
  | _ => None
  end.

Definition answer (w : World) : outcome string * World :=
  match script w with
  | [] => (Raise (OtherError "model unavailable"), w)
  | r :: rest => (r, mkWorld (current w) rest (body w) (wait_fails w))
  end.

Definition proposal (kind : string) (d : Details) : Decoded :=
  Object (mkProposal (Some (KindStr kind)) (Some (DetailsObject d)) None None).

Definition loads (text : string) : Decoded :=
  if String.eqb text "click" then
    proposal "CLICK" (mkDetails (Some "#missing") None None None None None None)
  else if String.eqb text "wait" then proposal "WAIT" (wait_details 1)
  else if String.eqb text "done" then proposal "TASK_COMPLETE" no_details
  else if String.eqb text "retry" then proposal "RETRY" no_details
  else if String.eqb text "explore" then proposal "EXPLORE_WEBSITE" no_details
  else if String.eqb text "captcha" then proposal "MANUAL_CAPTCHA" no_details
  else if String.eqb text "[1]" then NotAnObject
  else if String.eqb text "{}" then Object (mkProposal None None None None)
  else if String.eqb text "null action" then
    Object (mkProposal (Some KindOther) None None None)
  else if String.eqb text "null details" then
    Object (mkProposal (Some (KindStr "WAIT")) (Some DetailsOther) None None)
  else DecodeFails text.

Definition env : Env World :=
  {| page_goto := fun url w =>
       if String.eqb url "https://down.test"
       then (Raise (OtherError "net::ERR_NAME_NOT_RESOLVED"), w)
       else (Ret tt, mkWorld url (script w) (body w) (wait_fails w));
     page_url := current;
     page_title := fun w => (Ret "A test page", w);
     page_screenshot := fun n w => (Ret ("screenshot_" +:+ pretty n), w);
     page_evaluate := fun _ w => (Ret tt, w);
     page_wait_for_load_state := fun w => (Ret tt, w);
     page_wait_for_timeout := fun _ w =>
       if wait_fails w then (Raise (OtherError "Target closed"), w)
       else (Ret tt, w);
     keyboard_type := fun _ w => (Ret tt, w);
     loc_count := fun l w => (Ret (matches l w), w);
     loc_click := fun _ w => (Ret tt, w);
     loc_fill := fun _ _ w => (Ret tt, w);
     loc_text_content := fun _ w => (Ret (Some (body w)), w);
     loc_get_attribute := fun l _ w => (Ret (attribute l w), w);
     loc_is_visible := fun _ w => (Ret false, w);
     loc_evaluate := fun _ _ w => (Ret tt, w);
     generate_content := fun _ w => answer w;
     console_input := fun w => (Ret tt, w);
     search_polls := fun _ => 2;
     uuid4 := fun w => ("0000", w);
     write_memory_file := fun _ w => w;
     set_order := elements;
     json_loads := loads;
     netloc := fun _ => "a.test";
     urljoin := fun base href => default base href |}.

(** A fresh assistant in front of the home page. *)
Definition start (answers : list (outcome string)) (broken_wait : bool)
    : State World :=
  initial_state (mkWorld home answers "Welcome" broken_wait) false [].

(** A page body of 2010 characters, and a fresh assistant in front of it. *)
Definition long_body : string :=
  String.concat EmptyString (replicate 201 "0123456789").

Definition start_long : State World :=
  initial_state (mkWorld home [] long_body false) false [].

End Demo.

(** * Vocabulary of the properties *)

(** A method that returns normally from every state. *)
Definition never_raises {W A} (m : M W A) : Prop :=
  forall s, exists a s', m s = (Ret a, s').



(** [Frame R allowed]: the relation [R] is a preorder that tolerates any
    change of the world, of the screenshot counter, of the memory and of
    the captcha flag, and the emission of the events in [allowed]. *)
Class Frame {W} (R : relation (State W)) (allowed : Event -> Prop) : Prop := {
  frame_preorder :: PreOrder R;
  frame_world : forall s w, R s (set_world w s);
  frame_screenshot_count : forall s n, R s (set_screenshot_count n s);
  frame_memory : forall s m, R s (set_memory m s);
  frame_captcha : forall s b, R s (set_captcha b s);
  frame_emit : forall s e, allowed e -> R s (set_trace (trace s ++ [e]) s)
}.

Definition preserves {W A} (R : relation (State W)) (m : M W A) : Prop :=
  forall s, R s (m s).2.

Definition same_trace {W} : relation (State W) :=
  fun s s' => trace s' = trace s.

Definition no_event : Event -> Prop := fun _ => False.

(** The URL [navigate_to_url] hands to [page.goto]. *)
Definition goto_target (url : string) : string :=
  if has_scheme url then url else "https://" +:+ url.

(** The debug flag is left alone. *)
Definition same_debug {W} : relation (State W) :=
  fun s s' => debug s' = debug s.

(** The end of a navigation to [target], from the state [s] in which the
    title of the page is asked for: the result and the state after it. *)
Definition navigated {W} (env : Env W) (target : string) (s : State W)
    : ActionResult * State W :=
  match page_title env (world s) with
  | (Ret title, w) =>
      (mkResult SUCCESS (Text ("Navigated to " +:+ target))
         (Some title) (Some (page_url env w)) None,
       set_world w s)
  | (Raise e, w) => (result ERROR (ExnText e), set_world w s)
  end.


(** The locators [find_element_by_locator] may query. *)
Definition candidates (locator_str text : option string) (index : Z) : list string :=
  (if truthy locator_str then [default EmptyString locator_str] else [])
  ++ (if truthy text
      then text_locator_strategies (default EmptyString text) index
      else []).

(** [LoopFrame R allowed]: in addition, [R] tolerates a new visited URL
    and a new record of the history. *)
Class LoopFrame {W} (R : relation (State W)) (allowed : Event -> Prop) : Prop := {
  loop_frame :: Frame R allowed;
  frame_explored :
    forall s x, R s (set_explored_urls ({[x]} ∪ explored_urls s) s);
  frame_history :
    forall s step a d f,
      R s (set_action_history
             (action_history s ++ [history_entry step a d f]) s)
}.

Definition is_iteration (e : Event) : Prop :=
  match e with
  | EvIteration _ _ => True
  | _ => False
  end.

(** The URLs added to the visited set, in the order of the additions. *)
Definition added (events : list Event) : list string :=
  omap (fun e => match e with EvAdd u => Some u | _ => None end) events.

(** Work is done below the depth bound only. *)
Definition work_below (max_depth : nat) (e : Event) : Prop :=
  match e with
  | EvWork _ depth => depth < max_depth
  | _ => True
  end.

(** The stack of the depths of the open frames after [events]; [None]
    when a frame is entered inside a frame of depth [p] at a depth other
    than [p + 1], or a frame is left that is not the innermost one. *)
Fixpoint frames (stack : list nat) (events : list Event) : option (list nat) :=
  match events with
  | [] => Some stack
  | EvCall _ depth :: rest =>
      if match stack with [] => true | p :: _ => depth =? p + 1 end
      then frames (depth :: stack) rest
      else None
  | EvReturn _ depth :: rest =>
      match stack with
      | top :: stack' => if top =? depth then frames stack' rest else None
      | [] => None
      end
  | _ :: rest => frames stack rest
  end.

(** The events of the other methods. *)
Definition outside_crawl (e : Event) : Prop :=
  match e with
  | EvCall _ _ | EvWork _ _ | EvAdd _ | EvReturn _ _ => False
  | _ => True
  end.

(** What a part of a crawl does to the state, inside the frames
    [stack]. *)
Definition crawl_step {W} (max_depth : nat) (stack : list nat)
    : relation (State W) :=
  fun s s' =>
    exists new,
      trace s' = trace s ++ new
      /\ explored_urls s' = explored_urls s ∪ list_to_set (added new)
      /\ NoDup (added new)
      /\ (forall u, u ∈ added new -> u ∉ explored_urls s)
      /\ Forall (work_below max_depth) new
      /\ frames stack new = Some stack.

Definition same_explored {W} : relation (State W) :=
  fun s s' => explored_urls s' = explored_urls s.

Definition any_event : Event -> Prop := fun _ => True.

Definition stack_admits (stack : list nat) (depth : nat) : Prop :=
  match stack with
  | [] => True
  | p :: _ => depth = p + 1
  end.

Definition explored_grows {W} : relation (State W) :=
  fun s s' => explored_urls s ⊆ explored_urls s'.

(** The state after a first crawl of the home page of the demo site, and
    after a second, separate one. *)
Definition after_first_crawl : State Demo.World :=
  (explore_website Demo.env Demo.home 2 0 (Demo.start [] false)).2.

Definition after_second_crawl : State Demo.World :=
  (explore_website Demo.env Demo.home 2 0 after_first_crawl).2.

(** An iteration is entered with a step number in [1..max_steps] and with
    at most [max_retry_attempts] retries counted. *)
Definition iteration_ok (e : Event) : Prop :=
  match e with
  | EvIteration current_step retry_attempts =>
      1 <= current_step <= max_steps /\ retry_attempts <= max_retry_attempts
  | _ => True
  end.

Definition bounded_iterations {W} : relation (State W) :=
  fun s s' => exists new, trace s' = trace s ++ new /\ Forall iteration_ok new.

(** The kinds the loop handles itself. *)
Definition loop_kinds : list string :=
  ["TASK_COMPLETE"; "MANUAL_CAPTCHA"; "EXPLORE_WEBSITE"; "RETRY"].

(** The iterations entered according to a trace, in order: the step
    number and the retries counted at the entry. *)
Fixpoint iterations (events : list Event) : list (nat * nat) :=
  match events with
  | [] => []
  | EvIteration current_step retry_attempts :: rest =>
      (current_step, retry_attempts) :: iterations rest
  | _ :: rest => iterations rest
  end.



(** No iteration is entered and the history is left alone. *)
Definition silent {W} : relation (State W) :=
  fun s s' =>
    exists new,
      trace s' = trace s ++ new /\ iterations new = []
      /\ action_history s' = action_history s.

(** The two failures of the planner: a response that [json.loads] rejects,
    and a call of the model that raises. *)
Inductive PlannerFailure : Type :=
| DecodeFailure
| TransportFailure.

Definition planner_fails {W} (env : Env W) (kind : PlannerFailure)
    (o : outcome string) : Prop :=
  match kind, o with
  | TransportFailure, Raise _ => True
  | DecodeFailure, Ret response =>
      exists json_text text,
        strip_fences (strip response) = Ret json_text
        /\ json_loads env json_text = DecodeFails text
  | _, _ => False
  end.

Definition wait_seconds (kind : PlannerFailure) : Z :=
  match kind with
  | DecodeFailure => 5
  | TransportFailure => 10
  end.

Definition synthesized (kind : PlannerFailure) : Proposal :=
  match kind with
  | DecodeFailure => wait_after_decode_failure
  | TransportFailure => wait_after_api_failure
  end.

(** Trace and history are left alone. *)
Definition same_log {W} : relation (State W) :=
  fun s s' => trace s' = trace s /\ action_history s' = action_history s.

(** A record without the key ["status"]. *)
Definition no_status (action : gmap string Value) : Prop :=
  action !! "status" = None.

Definition no_status_kept {W} : relation (State W) :=
  fun s s' =>
    Forall no_status (action_history s) -> Forall no_status (action_history s').

(** The run in which the planner proposes a click on an element that does
    not exist and then gives no usable recovery proposal. *)
Definition failed_click_run : outcome (option TaskResult) * State Demo.World :=
  execute_task Demo.env "click the missing button"
    (Demo.start [Ret "click"; Ret "no json"] false).

(** * Further methods of the source *)

(** [del d[k]] on an insertion-ordered dictionary. *)
Definition dict_del {V} (k : string) (d : list (string * V)) : list (string * V) :=
  List.filter (fun kv => negb (String.eqb kv.1 k)) d.

(** [clear_memory]: with a category (a non-empty string) the entries of
    that category are deleted by their ids; otherwise the dictionary is
    replaced by an empty one. *)
Definition clear_memory {World} (env : Env World) (category : option string)
    : M World unit :=
  bind
    (if truthy category then
       modify (fun s =>
         let keys_to_delete :=
           map fst
             (List.filter
                (fun kv => String.eqb (m_category kv.2) (default EmptyString category))
                (memory s)) in
         set_memory (foldl (fun d k => dict_del k d) (memory s) keys_to_delete) s)
     else modify (set_memory []))
    (fun _ => save_memory env).

(** The entries of a dictionary that are not of category [c]. *)
Definition other_categories (c : string) (d : list (string * MemoryEntry))
    : list (string * MemoryEntry) :=
  List.filter (fun kv => negb (String.eqb (m_category kv.2) c)) d.

(** Whether [retrieve_memory key category] selects an entry. *)
Definition selected (key : string) (category : option string) (e : MemoryEntry)
    : bool :=
  String.eqb (m_key e) key
  && match category with
     | None => true
     | Some c => String.eqb (m_category e) c
     end.

(** The demo assistant after one entry was stored. *)
(** An assistant that holds one entry, saved under another id than the
    one the demo generates. *)
Definition with_old_memory : State Demo.World :=
  set_memory [("1111", mkMemory "a.test" "Old" "website")] (Demo.start [] false).

Definition after_first_memory : State Demo.World :=
  (add_memory Demo.env "a.test" "Welcome" "website" (Demo.start [] false)).2.

(** The directions [scroll_page] knows, in lower case. *)
Definition scroll_directions : list string :=
  ["down"; "up"; "top"; "bottom"; "right"; "left"].

(** A probe that returns no element: it found nothing or it raised. *)
Definition nothing_found (o : outcome (option Locator)) : Prop :=
  match o with
  | Ret (Some _) => False
  | _ => True
  end.

(** No candidate locator matches in any world: its count is 0 or the
    query raises. *)
Definition nothing_matches {W} (env : Env W) (selectors : list string) : Prop :=
  forall selector w,
    selector ∈ selectors ->
    match (loc_count env (Loc selector) w).1 with
    | Ret n => n = 0
    | Raise _ => True
    end.

(** An entry of the result of the "links" extraction that the filter of
    the source lets through. *)
Definition valid_link (link : string * string) : Prop :=
  link.1 <> EmptyString /\ 1 < String.length link.2.

(** A measure of the page that only a successful click can raise, and by
    one at most. *)
Definition counts_clicks {W} (env : Env W) (clicks : W -> nat) : Prop :=
  (forall l w, clicks (loc_count env l w).2 = clicks w)
  /\ (forall l w, clicks (loc_is_visible env l w).2 = clicks w)
  /\ (forall l w,
        match loc_click env l w with
        | (Ret _, w') => clicks w' <= clicks w + 1
        | (Raise _, w') => clicks w' = clicks w
        end).

(** A page with two visible consent banners; the world is the number of
    clicks made. *)
Module Banner.

Definition env : Env nat :=
  {| page_goto := fun _ w => (Ret tt, w);
     page_url := fun _ => "https://a.test/";
     page_title := fun w => (Ret "A test page", w);
     page_screenshot := fun _ w => (Ret "screenshot", w);
     page_evaluate := fun _ w => (Ret tt, w);
     page_wait_for_load_state := fun w => (Ret tt, w);
     page_wait_for_timeout := fun _ w => (Ret tt, w);
     keyboard_type := fun _ w => (Ret tt, w);
     loc_count := fun l w =>
       (Ret (if bool_decide (l = Loc "text=Accept" \/ l = Loc "text=Close")
             then 1 else 0), w);
     loc_click := fun _ w => (Ret tt, S w);
     loc_fill := fun _ _ w => (Ret tt, w);
     loc_text_content := fun _ w => (Ret (Some "Welcome"), w);
     loc_get_attribute := fun _ _ w => (Ret None, w);
     loc_is_visible := fun _ w => (Ret true, w);
     loc_evaluate := fun _ _ w => (Ret tt, w);
     generate_content := fun _ w => (Raise (OtherError "model unavailable"), w);
     console_input := fun w => (Ret tt, w);
     search_polls := fun _ => 1;
     uuid4 := fun w => ("0000", w);
     write_memory_file := fun _ w => w;
     set_order := elements;
     json_loads := fun text => DecodeFails text;
     netloc := fun _ => "a.test";
     urljoin := fun base href => default base href |}.

Definition start : State nat := initial_state 0 false [].

End Banner.

(** The status of the result an executor call returned, if it returned. *)
Definition returned_status (o : outcome ActionResult) : option Status :=
  match o with
  | Ret r => Some (status r)
  | Raise _ => None
  end.

(** The kinds [execute_action] only acknowledges. *)
Definition acknowledged_kinds : list string :=
  ["EXPLORE_WEBSITE"; "TASK_COMPLETE"; "ABORT"; "MANUAL_CAPTCHA"; "RETRY"].

(** The model never gives an answer that decodes to a JSON object: its
    call raises, or [json.loads] rejects the text or yields another kind
    of value. *)
Definition no_usable_answer {W} (env : Env W) : Prop :=
  forall prompt w,
    match (generate_content env prompt w).1 with
    | Raise _ => True
    | Ret response =>
        forall json_text p,
          strip_fences (strip response) = Ret json_text ->
          json_loads env json_text <> Object p
    end.

(** The loop is not continued. *)
Definition loop_left (o : outcome Control) : Prop :=
  match o with
  | Ret (Continue _) => False
  | _ => True
  end.

(** The history is left alone. *)
Definition same_history {W} : relation (State W) :=
  fun s s' => action_history s' = action_history s.

(** The records the control loop writes. *)
Definition written_at (step : nat) (entry : gmap string Value) : Prop :=
  exists (action : string) details filename,
    entry = history_entry step (KindStr action) details filename.

(** The records of steps [first + 1], [first + 2], ... in this order. *)
Definition numbered_from (first : nat) (new : list (gmap string Value)) : Prop :=
  forall i entry, new !! i = Some entry -> written_at (first + i + 1) entry.

(** The model always answers with a JSON object that has no ["action"]. *)
Definition answers_without_action {W} (env : Env W) : Prop :=
  forall prompt w,
    exists response w' json_text p,
      generate_content env prompt w = (Ret response, w')
      /\ strip_fences (strip response) = Ret json_text
      /\ json_loads env json_text = Object p
      /\ p_action p = None.

(** [env] with a model that gives one answer, decoded as [decoded]. *)
Definition answering {W} (env : Env W) (answer : string) (decoded : Decoded)
    : Env W :=
  {| page_goto := page_goto env;
     page_url := page_url env;
     page_title := page_title env;
     page_screenshot := page_screenshot env;
     page_evaluate := page_evaluate env;
     page_wait_for_load_state := page_wait_for_load_state env;
     page_wait_for_timeout := page_wait_for_timeout env;
     keyboard_type := keyboard_type env;
     loc_count := loc_count env;
     loc_click := loc_click env;
     loc_fill := loc_fill env;
     loc_text_content := loc_text_content env;
     loc_get_attribute := loc_get_attribute env;
     loc_is_visible := loc_is_visible env;
     loc_evaluate := loc_evaluate env;
     generate_content := fun _ w => (Ret answer, w);
     console_input := console_input env;
     search_polls := search_polls env;
     uuid4 := uuid4 env;
     write_memory_file := write_memory_file env;
     set_order := set_order env;
     json_loads := fun _ => decoded;
     netloc := netloc env;
     urljoin := urljoin env |}.

(** A run of two steps: a wait, then the end of the task. *)
Definition two_step_run : outcome (option TaskResult) * State Demo.World :=
  execute_task Demo.env "wait a second"
    (Demo.start [Ret "wait"; Ret "done"] false).

(** A record written by the control loop, at any step. *)
Definition written (entry : gmap string Value) : Prop :=
  exists step, written_at step entry.

(** The step number and the kind of a record. *)
Definition step_and_kind (entry : gmap string Value) : Value * Value :=
  (default (VNum 0) (entry !! "step"), default (VStr EmptyString) (entry !! "action")).



(** The result of [wait_for] when the wait of the driver ends as [o]. *)
Definition wait_outcome (seconds : Z) (o : outcome unit) : ActionResult :=
  match o with
  | Ret _ => result SUCCESS (Text ("Waited for " +:+ pretty seconds +:+ " seconds"))
  | Raise e => result ERROR (ExnText e)
  end.

(** * Properties *)

(** ** The string operations on examples *)

Example split_fences :
  split "```" "```json {} ``` tail" = [EmptyString; "json {} "; " tail"].
Proof. reflexivity. Qed.

Example split_json_fence :
  split "```json" "```json {} ``` tail" = [EmptyString; " {} ``` tail"].
Proof. reflexivity. Qed.

Example split_no_separator : split "```" "{}" = ["{}"].
Proof. reflexivity. Qed.

Example strip_both : strip "  a b
 " = "a b".
Proof. reflexivity. Qed.

Example upper_mixed : upper "Click_1" = "CLICK_1".
Proof. reflexivity. Qed.

(** ** Reasoning about methods *)

Lemma never_raises_ret {W A} (a : A) : never_raises (@ret W A a).
Proof. intros s. by exists a, s. Qed.

Lemma never_raises_gets {W A} (f : State W -> A) : never_raises (gets f).
Proof. intros s. by exists (f s), s. Qed.

Lemma never_raises_modify {W} (f : State W -> State W) : never_raises (modify f).
Proof. intros s. by exists tt, (f s). Qed.

Lemma never_raises_emit {W} (e : Event) : never_raises (@emit W e).
Proof. apply never_raises_modify. Qed.

Lemma never_raises_bind {W A B} (m : M W A) (k : A -> M W B) :
  never_raises m -> (forall a, never_raises (k a)) -> never_raises (bind m k).
Proof.
  intros Hm Hk s. destruct (Hm s) as (a & s1 & E).
  destruct (Hk a s1) as (b & s2 & E2).
  exists b, s2. unfold bind. by rewrite E.
Qed.

Lemma never_raises_try_catch {W A} (m : M W A) (h : exn -> M W A) :
  (forall e, never_raises (h e)) -> never_raises (try_catch m h).
Proof.
  intros Hh s. unfold try_catch.
  destruct (m s) as [[a | e] s1]; [by exists a, s1 | apply Hh].
Qed.

Lemma never_raises_protect {W} (m : M W ActionResult) : never_raises (protect m).
Proof. apply never_raises_try_catch. intros e. apply never_raises_ret. Qed.


Lemma protect_ret {W} (m : M W ActionResult) s r s' :
  m s = (Ret r, s') -> protect m s = (Ret r, s').
Proof. intros E. unfold protect, try_catch. by rewrite E. Qed.

(** ** Upper and lower case *)

Lemma upper_lower_char c : upper_char (lower_char c) = upper_char c.
Proof. by destruct c as [[] [] [] [] [] [] [] []]. Qed.

Lemma upper_upper_char c : upper_char (upper_char c) = upper_char c.
Proof. by destruct c as [[] [] [] [] [] [] [] []]. Qed.

Lemma upper_lower s : upper (lower s) = upper s.
Proof. induction s as [| c s IH]; simpl; [done |]. by rewrite upper_lower_char, IH. Qed.

Lemma upper_upper s : upper (upper s) = upper s.
Proof. induction s as [| c s IH]; simpl; [done |]. by rewrite upper_upper_char, IH. Qed.

(** Two spellings of a kind that differ in case only have one upper-case
    form. *)
Lemma same_case_folding_upper k1 k2 : lower k1 = lower k2 -> upper k1 = upper k2.
Proof. intros E. by rewrite <- (upper_lower k1), E, upper_lower. Qed.

(** ** The action executor *)


Lemma navigate_never_raises {W} (env : Env W) url :
  never_raises (navigate_to_url env url).
Proof.
  unfold navigate_to_url. case_bool_decide.
  - apply never_raises_ret.
  - apply never_raises_protect.
Qed.

Lemma bind_ret {W A B} (a : A) (k : A -> M W B) : bind (ret a) k = k a.
Proof. reflexivity. Qed.

Lemma bind_raise {W A B} e (k : A -> M W B) : bind (raise e) k = raise e.
Proof. reflexivity. Qed.






(** C10. Dispatch does not depend on the case of the proposal's kind: two
    proposals that differ only in the case of the letters of [action] are
    executed with the same result (and leave the same state), because the
    kind is upper-cased before it is compared. *)
Theorem execute_action_case_insensitive {World} (env : Env World)
    (k1 k2 : string) (d : option DetailsValue) (r m : option string)
    (s : State World) :
  lower k1 = lower k2 ->
  execute_action env (mkProposal (Some (KindStr k1)) d r m) s
  = execute_action env (mkProposal (Some (KindStr k2)) d r m) s.
Proof.
  intros E. unfold execute_action. cbn [p_action p_details kind_upper].
  by rewrite (same_case_folding_upper k1 k2 E).
Qed.

Lemma execute_action_case_insensitive_witness :
  lower "cLiCk" = lower "CLICK"
  /\ execute_action Demo.env
       (mkProposal (Some (KindStr "cLiCk")) (Some (DetailsObject no_details))
          None None) (Demo.start [] false)
     = execute_action Demo.env
         (mkProposal (Some (KindStr "CLICK")) (Some (DetailsObject no_details))
            None None) (Demo.start [] false).
Proof.
  split; [reflexivity |].
  apply (execute_action_case_insensitive Demo.env "cLiCk" "CLICK"). reflexivity.
Defined.

(** The upper-case and the lower-case spelling of a kind are executed
    like the kind itself. *)
Lemma execute_action_upper_lower {World} (env : Env World) k d r m (s : State World) :
  execute_action env (mkProposal (Some (KindStr (upper k))) d r m) s
  = execute_action env (mkProposal (Some (KindStr k)) d r m) s
  /\ execute_action env (mkProposal (Some (KindStr (lower k))) d r m) s
     = execute_action env (mkProposal (Some (KindStr k)) d r m) s.
Proof.
  unfold execute_action. cbn [p_action p_details kind_upper].
  by rewrite upper_upper, upper_lower.
Qed.




(** Details that are no mapping are caught at the boundary. *)
Example null_details_is_an_error :
  (execute_action Demo.env
     (mkProposal (Some (KindStr "WAIT")) (Some DetailsOther) None None)
     (Demo.start [] false)).1
  = Ret (result ERROR (ExnText (OtherError "object has no attribute 'get'"))).
Proof. by vm_compute. Qed.

(** ** Relations between the state before and after a method *)

Section Preservation.

Context {W : Type} (R : relation (State W)) `{!PreOrder R}.

Lemma preserves_ret {A} (a : A) : preserves R (ret a).
Proof. intros s. reflexivity. Qed.

Lemma preserves_raise {A} e : preserves R (@raise W A e).
Proof. intros s. reflexivity. Qed.

Lemma preserves_gets {A} (f : State W -> A) : preserves R (gets f).
Proof. intros s. reflexivity. Qed.

Lemma preserves_lift {A} (o : outcome A) : preserves R (lift o).
Proof. intros s. reflexivity. Qed.

Lemma preserves_modify (f : State W -> State W) :
  (forall s, R s (f s)) -> preserves R (modify f).
Proof. intros H s. apply H. Qed.

Lemma preserves_bind {A B} (m : M W A) (k : A -> M W B) :
  preserves R m -> (forall a, preserves R (k a)) -> preserves R (bind m k).
Proof.
  intros Hm Hk s. unfold bind. specialize (Hm s).
  destruct (m s) as [[a | e] s1]; [| done].
  etransitivity; [exact Hm | apply Hk].
Qed.

Lemma preserves_try_catch {A} (m : M W A) (h : exn -> M W A) :
  preserves R m -> (forall e, preserves R (h e)) -> preserves R (try_catch m h).
Proof.
  intros Hm Hh s. unfold try_catch. specialize (Hm s).
  destruct (m s) as [[a | e] s1]; [done |].
  etransitivity; [exact Hm | apply Hh].
Qed.

Lemma preserves_protect (m : M W ActionResult) :
  preserves R m -> preserves R (protect m).
Proof. intros Hm. apply preserves_try_catch; [done |]. intros e. apply preserves_ret. Qed.

Lemma preserves_if {A} (b : bool) (m1 m2 : M W A) :
  preserves R m1 -> preserves R m2 -> preserves R (if b then m1 else m2).
Proof. by destruct b. Qed.

Lemma preserves_for_each {A} (body : A -> M W unit) (xs : list A) :
  (forall x, preserves R (body x)) -> preserves R (for_each body xs).
Proof.
  intros Hb. induction xs as [| x xs IH]; simpl.
  - apply preserves_ret.
  - apply preserves_bind; [apply Hb | done].
Qed.

End Preservation.

Section FramedCalls.

Context {W : Type} (R : relation (State W)) (allowed : Event -> Prop)
  `{!Frame R allowed}.

Lemma preserves_call {A} (op : W -> outcome A * W) : preserves R (call op).
Proof.
  intros s. unfold call. destruct (op (world s)) as [r w]. apply frame_world.
Qed.

Lemma preserves_emit e : allowed e -> preserves R (emit e).
Proof. intros H s. by apply frame_emit. Qed.

End FramedCalls.

(** The steps a proof of preservation is made of; [leaf] is tried first,
    for the methods whose preservation is already known. *)
Ltac framed_with leaf :=
  repeat first
    [ leaf
    | apply preserves_ret; typeclasses eauto
    | apply preserves_raise; typeclasses eauto
    | apply preserves_gets; typeclasses eauto
    | apply preserves_lift; typeclasses eauto
    | eapply preserves_call; typeclasses eauto
    | apply preserves_protect; [typeclasses eauto |]
    | apply preserves_bind; [typeclasses eauto | | intros ?]
    | apply preserves_try_catch; [typeclasses eauto | | intros ?]
    | apply preserves_if
    | assumption
    | match goal with
      | IH : forall _, preserves _ _ |- _ => apply IH
      | |- preserves _ (match ?x with _ => _ end) => destruct x
      | |- preserves _ (let _ := _ in _) => cbv zeta
      end ].

Ltac framed := framed_with fail.

Section Framed.

Context {W : Type} (env : Env W).
Context (R : relation (State W)) (allowed : Event -> Prop) `{!Frame R allowed}.

(** A [modify] that changes one of the tolerated fields. *)
Ltac tolerated :=
  idtac;
  match goal with
  | |- preserves _ (modify _) =>
      apply preserves_modify; intros ?;
      first [ apply frame_screenshot_count | apply frame_memory
            | apply frame_world | apply frame_captcha ]
  end.

Lemma preserves_take_screenshot : preserves R (take_screenshot env).
Proof. unfold take_screenshot. framed_with tolerated. Qed.

Lemma preserves_add_memory k v c : preserves R (add_memory env k v c).
Proof. unfold add_memory, save_memory. framed_with tolerated. Qed.

Lemma preserves_dismiss_loop sels : preserves R (dismiss_loop env sels).
Proof. induction sels as [| sel sels IH]; simpl; framed. Qed.

Lemma preserves_probe sel index colour : preserves R (probe env sel index colour).
Proof. unfold probe. framed. Qed.

Lemma preserves_probe_strategies l index :
  preserves R (probe_strategies env l index).
Proof.
  induction l as [| x l IH]; simpl; framed_with ltac:(apply preserves_probe).
Qed.

Lemma preserves_find_attempt l t i : preserves R (find_attempt env l t i).
Proof.
  unfold find_attempt.
  framed_with ltac:(first [apply preserves_probe | apply preserves_probe_strategies]).
Qed.

Lemma preserves_find_loop n l t i : preserves R (find_loop env n l t i).
Proof.
  induction n as [| n IH]; simpl; framed_with ltac:(apply preserves_find_attempt).
Qed.

Lemma preserves_find_element l t i :
  preserves R (find_element_by_locator env l t i).
Proof.
  unfold find_element_by_locator. framed_with ltac:(apply preserves_find_loop).
Qed.

Lemma preserves_click_element l t i : preserves R (click_element env l t i).
Proof.
  unfold click_element.
  framed_with
    ltac:(first [apply preserves_find_element | apply preserves_take_screenshot]).
Qed.

Lemma preserves_first_input l : preserves R (first_input env l).
Proof. induction l as [| x l IH]; simpl; framed. Qed.

Lemma preserves_type_text l t : preserves R (type_text env l t).
Proof.
  unfold type_text.
  framed_with
    ltac:(first [apply preserves_find_element | apply preserves_first_input]).
Qed.

Lemma preserves_scroll_page d a : preserves R (scroll_page env d a).
Proof. unfold scroll_page. framed_with ltac:(apply preserves_take_screenshot). Qed.

Lemma preserves_wait_for n : preserves R (wait_for env n).
Proof. unfold wait_for. framed. Qed.

Lemma preserves_collect_links l acc : preserves R (collect_links env l acc).
Proof. revert acc. induction l as [| x l IH]; intros acc; simpl; framed. Qed.

Lemma preserves_collect_results c l acc :
  preserves R (collect_results env c l acc).
Proof. revert acc. induction l as [| x l IH]; intros acc; simpl; framed. Qed.

Lemma preserves_probe_containers l acc :
  preserves R (probe_containers env l acc).
Proof.
  revert acc. induction l as [| x l IH]; intros acc; simpl;
    framed_with ltac:(apply preserves_collect_results).
Qed.

Lemma preserves_extract_content t l : preserves R (extract_content env t l).
Proof.
  unfold extract_content, extract_text, extract_links, extract_search_results,
    extract_element_text, require_text.
  framed_with
    ltac:(first [ apply preserves_find_element | apply preserves_collect_links
                | apply preserves_probe_containers ]).
Qed.

Lemma preserves_handle_dialogs :
  allowed EvDialogs -> preserves R (handle_dialogs env).
Proof.
  intros H. unfold handle_dialogs.
  framed_with
    ltac:(first [by eapply preserves_emit | apply preserves_dismiss_loop]).
Qed.

Lemma preserves_navigate_to_url url :
  (forall u, allowed (EvGoto u)) -> allowed EvDialogs ->
  preserves R (navigate_to_url env url).
Proof.
  intros Hg Hd. unfold navigate_to_url.
  framed_with
    ltac:(first [ by eapply preserves_emit | by apply preserves_handle_dialogs
                | apply preserves_take_screenshot ]).
Qed.

Lemma preserves_details_get {A} d (key : Details -> option A) :
  preserves R (details_get d key).
Proof. unfold details_get. framed. Qed.

Lemma preserves_kind_upper action : preserves R (kind_upper action).
Proof. unfold kind_upper. framed. Qed.

Lemma preserves_dispatch k d :
  (forall u, allowed (EvGoto u)) -> allowed EvDialogs ->
  preserves R (dispatch env k d).
Proof.
  intros Hg Hd. unfold dispatch.
  framed_with
    ltac:(first [ apply preserves_details_get
                | apply preserves_click_element | apply preserves_type_text
                | by apply preserves_navigate_to_url | apply preserves_scroll_page
                | apply preserves_wait_for | apply preserves_extract_content ]).
Qed.

Lemma preserves_execute_action p :
  (forall u, allowed (EvGoto u)) -> allowed EvDialogs ->
  (forall k st, allowed (EvExecuted k st)) ->
  preserves R (execute_action env p).
Proof.
  intros Hg Hd He. unfold execute_action.
  framed_with
    ltac:(first [ apply preserves_kind_upper
                | by apply preserves_dispatch | by eapply preserves_emit ]).
Qed.


End Framed.

(** ** Methods that leave the trace alone *)

#[global] Instance same_trace_frame {W} : Frame (@same_trace W) no_event.
Proof.
  split; try by (intros; destruct s).
  split; [by intros s | intros s1 s2 s3 H1 H2; unfold same_trace in *; congruence].
Qed.

Lemma dismiss_loop_never_raises {W} (env : Env W) sels :
  never_raises (dismiss_loop env sels).
Proof.
  induction sels as [| sel sels IH]; simpl.
  - apply never_raises_ret.
  - apply never_raises_bind.
    + apply never_raises_try_catch. intros e. apply never_raises_ret.
    + intros [|]; [apply never_raises_ret | apply IH].
Qed.

Lemma handle_dialogs_run {W} (env : Env W) s :
  exists s', handle_dialogs env s = (Ret tt, s')
             /\ trace s' = trace s ++ [EvDialogs].
Proof.
  unfold handle_dialogs, bind, emit, modify.
  set (s0 := set_trace (trace s ++ [EvDialogs]) s).
  destruct (dismiss_loop_never_raises env dismiss_selectors s0) as ([] & s' & E).
  exists s'. split; [done |].
  pose proof (preserves_dismiss_loop env same_trace no_event dismiss_selectors s0) as H.
  rewrite E in H. unfold same_trace in H. simpl in H. rewrite H. by destruct s.
Qed.

Lemma navigated_is_not_no_url target :
  Text ("Navigated to " +:+ target) <> Text "No URL provided".
Proof. simpl. discriminate. Qed.

#[global] Instance same_debug_frame {W} : Frame (@same_debug W) any_event.
Proof.
  split; try by (intros; destruct s).
  split; [by intros s |].
  intros s1 s2 s3 H1 H2. unfold same_debug in *. congruence.
Qed.

(** A navigation to a non-empty URL, step by step: [page.goto] on the
    page as it is, then [handle_dialogs] on the page it leaves, then the
    screenshot of debug mode and the title. *)
Lemma navigate_to_url_run {W} (env : Env W) url (s : State W) o w :
  url <> EmptyString ->
  page_goto env (goto_target url) (world s) = (o, w) ->
  navigate_to_url env url s
  = match o with
    | Raise e =>
        (Ret (result ERROR (ExnText e)),
         set_world w (set_trace (trace s ++ [EvGoto (goto_target url)]) s))
    | Ret _ =>
        match handle_dialogs env
                (set_world w
                   (set_trace (trace s ++ [EvGoto (goto_target url)]) s)) with
        | (Ret _, s2) =>
            if debug s2 then
              match take_screenshot env s2 with
              | (Ret _, s3) =>
                  (Ret (navigated env (goto_target url) s3).1,
                   (navigated env (goto_target url) s3).2)
              | (Raise e, s3) => (Ret (result ERROR (ExnText e)), s3)
              end
            else (Ret (navigated env (goto_target url) s2).1,
                  (navigated env (goto_target url) s2).2)
        | (Raise e, s2) => (Ret (result ERROR (ExnText e)), s2)
        end
    end.
Proof.
  intros Hurl Egoto. unfold navigate_to_url.
  rewrite bool_decide_false by done. fold (goto_target url).
  unfold protect, try_catch, bind at 1 2, emit, modify, call.
  cbn [world set_trace]. rewrite Egoto.
  destruct o as [[] | e]; [| done].
  unfold bind at 1.
  destruct (handle_dialogs env _) as [[[] | e] s2]; [| done].
  unfold bind at 1, gets. destruct (debug s2).
  - unfold bind at 1 2.
    destruct (take_screenshot env s2) as [[shot | e] s3]; [| done].
    unfold ret at 1, bind, gets, call, ret, navigated.
    by destruct (page_title env (world s3)) as [[title | e] w4].
  - unfold ret at 1, bind, gets, call, ret, navigated.
    by destruct (page_title env (world s2)) as [[title | e] w4].
Qed.

Lemma navigated_result {W} (env : Env W) target (s : State W) :
  trace (navigated env target s).2 = trace s
  /\ (status (navigated env target s).1 = SUCCESS ->
      message (navigated env target s).1 = Text ("Navigated to " +:+ target))
  /\ (status (navigated env target s).1 = ERROR ->
      exists e, message (navigated env target s).1 = ExnText e).
Proof.
  unfold navigated.
  destruct (page_title env (world s)) as [[title | e] w]; simpl;
    (split; [by destruct s |]); split; try done.
  intros _. by exists e.
Qed.

(** C9. [navigate_to_url] returns the error "No URL provided" exactly when
    the URL is empty (and then touches nothing).  For a non-empty URL it
    applies [page.goto] to the page as it is, once, on the URL itself when
    it starts with [http://] or [https://] and on ["https://" + url]
    otherwise.  When [page.goto] raises, the result is [ERROR] with the
    text of its exception and the page is as [page.goto] left it; when it
    returns, [handle_dialogs] runs exactly once, on the page [page.goto]
    left, and the result is the one of the rest of the body from the
    state [handle_dialogs] leaves: the screenshot of debug mode, then the
    title and [SUCCESS], or [ERROR] with the text of the exception of the
    driver.  For a non-empty URL every [ERROR] is of this form. *)
Theorem navigate_to_url_behaviour {W} (env : Env W) (url : string) (s : State W) :
  exists r s',
    navigate_to_url env url s = (Ret r, s')
    /\ (status r = ERROR /\ message r = Text "No URL provided" <-> url = EmptyString)
    /\ (url = EmptyString -> s' = s)
    /\ (url <> EmptyString ->
        (has_scheme url = true -> goto_target url = url)
        /\ (has_scheme url = false -> goto_target url = "https://" +:+ url)
        /\ exists rest,
             trace s' = trace s ++ EvGoto (goto_target url) :: rest
             /\ (rest = [] \/ rest = [EvDialogs]))
    /\ (url <> EmptyString -> status r = SUCCESS ->
        trace s' = trace s ++ [EvGoto (goto_target url); EvDialogs]
        /\ message r = Text ("Navigated to " +:+ goto_target url)
        /\ exists w, page_goto env (goto_target url) (world s) = (Ret tt, w))
    /\ (url <> EmptyString ->
        forall o w,
          page_goto env (goto_target url) (world s) = (o, w) ->
          match o with
          | Raise e =>
              r = result ERROR (ExnText e)
              /\ s' = set_world w
                        (set_trace (trace s ++ [EvGoto (goto_target url)]) s)
          | Ret _ =>
              exists s2,
                handle_dialogs env
                  (set_world w
                     (set_trace (trace s ++ [EvGoto (goto_target url)]) s))
                = (Ret tt, s2)
                /\ debug s2 = debug s
                /\ if debug s then
                     match take_screenshot env s2 with
                     | (Ret _, s3) => (r, s') = navigated env (goto_target url) s3
                     | (Raise e, s3) => r = result ERROR (ExnText e) /\ s' = s3
                     end
                   else (r, s') = navigated env (goto_target url) s2
          end)
    /\ (url <> EmptyString -> status r = ERROR -> exists e, message r = ExnText e).
Proof.
  destruct (decide (url = EmptyString)) as [Hurl | Hurl].
  { exists (result ERROR (Text "No URL provided")), s.
    unfold navigate_to_url. rewrite bool_decide_true by done. simpl. tauto. }
  destruct (page_goto env (goto_target url) (world s)) as [o w] eqn:Egoto.
  pose proof (navigate_to_url_run env url s o w Hurl Egoto) as Erun.
  assert (Hscheme : (has_scheme url = true -> goto_target url = url)
                    /\ (has_scheme url = false ->
                        goto_target url = "https://" +:+ url)).
  { unfold goto_target. by destruct (has_scheme url). }
  set (target := goto_target url) in *.
  set (s0 := set_world w (set_trace (trace s ++ [EvGoto target]) s)) in *.
  assert (Ht0 : trace s0 = trace s ++ [EvGoto target]) by done.
  (* what is left to show once the result and its trace are known *)
  assert (Hrest : forall r (s' : State W) rest,
            trace s' = trace s ++ EvGoto target :: rest ->
            rest = [] \/ rest = [EvDialogs] ->
            (status r = SUCCESS ->
             rest = [EvDialogs]
             /\ message r = Text ("Navigated to " +:+ target)
             /\ exists w', (o, w) = (Ret tt, w')) ->
            (status r = ERROR -> exists e, message r = ExnText e) ->
            (status r = ERROR /\ message r = Text "No URL provided"
             <-> url = EmptyString)
            /\ (url = EmptyString -> s' = s)
            /\ (url <> EmptyString ->
                (has_scheme url = true -> target = url)
                /\ (has_scheme url = false -> target = "https://" +:+ url)
                /\ exists rest,
                     trace s' = trace s ++ EvGoto target :: rest
                     /\ (rest = [] \/ rest = [EvDialogs]))
            /\ (url <> EmptyString -> status r = SUCCESS ->
                trace s' = trace s ++ [EvGoto target; EvDialogs]
                /\ message r = Text ("Navigated to " +:+ target)
                /\ exists w', (o, w) = (Ret tt, w'))).
  { intros r s' rest Ht Hr Hok Herr.
    split; [split; [| done] |].
    { intros [Hst Hm]. destruct (Herr Hst) as [e He]. congruence. }
    split; [done |].
    split; [intros _; split; [tauto |]; split; [tauto |]; by exists rest |].
    intros _ Hst. destruct (Hok Hst) as (-> & Hm & Hw). by rewrite Ht. }
  destruct o as [[] | e].
  2:{ (* page.goto raises *)
      exists (result ERROR (ExnText e)), s0. split; [exact Erun |].
      destruct (Hrest (result ERROR (ExnText e)) s0 [] Ht0 (or_introl eq_refl))
        as (H1 & H2 & H3 & H4); [done | by exists e |].
      split; [exact H1 |]. split; [exact H2 |]. split; [exact H3 |].
      split; [exact H4 |]. split; [| by exists e].
      intros _ o' w' E'. by injection E' as <- <-. }
  destruct (handle_dialogs_run env s0) as (s2 & Ed & Ht2).
  rewrite Ed in Erun.
  assert (Hd2 : debug s2 = debug s).
  { pose proof (preserves_handle_dialogs env same_debug any_event I s0) as H.
    rewrite Ed in H. unfold same_debug in H. simpl in H. by rewrite H. }
  assert (Ht2' : trace s2 = trace s ++ EvGoto target :: [EvDialogs]).
  { by rewrite Ht2, Ht0, <- app_assoc. }
  assert (Hnav : forall s3,
            trace s3 = trace s2 ->
            exists r s',
              (r, s') = navigated env target s3
              /\ trace s' = trace s ++ EvGoto target :: [EvDialogs]
              /\ (status r = SUCCESS ->
                  [EvDialogs] = [EvDialogs]
                  /\ message r = Text ("Navigated to " +:+ target)
                  /\ exists w', (@Ret unit tt, w) = (Ret tt, w'))
              /\ (status r = ERROR -> exists e, message r = ExnText e)).
  { intros s3 H3.
    destruct (navigated_result env target s3) as (Htr & Hok & Herr).
    exists (navigated env target s3).1, (navigated env target s3).2.
    split; [by destruct (navigated env target s3) |].
    split; [by rewrite Htr, H3 |]. split; [| done].
    intros Hst. split; [done |]. split; [by apply Hok | by exists w]. }
  rewrite Hd2 in Erun. destruct (debug s) eqn:Hdbg.
  - pose proof (preserves_take_screenshot env same_trace no_event s2) as Hshot.
    unfold same_trace in Hshot.
    destruct (take_screenshot env s2) as [[shot | e] s3] eqn:Eshot;
      simpl in Hshot.
    + destruct (Hnav s3 Hshot) as (r & s' & En & Ht & Hok & Herr).
      exists r, s'. split; [by rewrite Erun, <- En |].
      destruct (Hrest r s' [EvDialogs] Ht (or_intror eq_refl) Hok Herr)
        as (H1 & H2 & H3 & H4).
      split; [exact H1 |]. split; [exact H2 |]. split; [exact H3 |].
      split; [exact H4 |]. split; [| by intros _].
      intros _ o' w' E'. injection E' as <- <-. exists s2.
      split; [done |]. split; [done |]. by rewrite Eshot.
    + exists (result ERROR (ExnText e)), s3. split; [exact Erun |].
      destruct (Hrest (result ERROR (ExnText e)) s3 [EvDialogs])
        as (H1 & H2 & H3 & H4);
        [by rewrite Hshot | by right | done | by exists e |].
      split; [exact H1 |]. split; [exact H2 |]. split; [exact H3 |].
      split; [exact H4 |]. split; [| by exists e].
      intros _ o' w' E'. injection E' as <- <-. exists s2.
      split; [done |]. split; [done |]. by rewrite Eshot.
  - destruct (Hnav s2 eq_refl) as (r & s' & En & Ht & Hok & Herr).
    exists r, s'. split; [by rewrite Erun, <- En |].
    destruct (Hrest r s' [EvDialogs] Ht (or_intror eq_refl) Hok Herr)
      as (H1 & H2 & H3 & H4).
    split; [exact H1 |]. split; [exact H2 |]. split; [exact H3 |].
    split; [exact H4 |]. split; [| by intros _].
    intros _ o' w' E'. injection E' as <- <-. by exists s2.
Qed.

Example navigate_adds_scheme :
  let r := navigate_to_url Demo.env "a.test/x" (Demo.start [] false) in
  trace r.2 = [EvGoto "https://a.test/x"; EvDialogs]
  /\ Demo.current (world r.2) = "https://a.test/x".
Proof. by vm_compute. Qed.

Example navigate_keeps_scheme :
  trace (navigate_to_url Demo.env "http://a.test/x" (Demo.start [] false)).2
  = [EvGoto "http://a.test/x"; EvDialogs].
Proof. by vm_compute. Qed.

(** ** Extraction of text *)

Lemma length_append s1 s2 :
  String.length (s1 +:+ s2) = String.length s1 + String.length s2.
Proof. induction s1 as [| c s1 IH]; simpl; [done | by rewrite IH]. Qed.

Lemma length_slice_to n s : String.length (slice_to n s) = Nat.min n (String.length s).
Proof.
  unfold slice_to. revert s.
  induction n as [| n IH]; intros [| c s]; simpl; try done.
  by rewrite IH.
Qed.

Lemma main_text_long t :
  text_limit < String.length t ->
  main_text t = slice_to text_limit t +:+ "..."
  /\ String.length (main_text t) = text_limit + 3.
Proof.
  intros H. unfold main_text.
  destruct (Nat.ltb_spec text_limit (String.length t)); [| lia].
  split; [done |]. rewrite length_append, length_slice_to.
  change (String.length "...") with 3. lia.
Qed.

Lemma main_text_short t :
  String.length t <= text_limit -> main_text t = t.
Proof.
  intros H. unfold main_text.
  destruct (Nat.ltb_spec text_limit (String.length t)); [lia | done].
Qed.

Lemma main_text_bounded t : String.length (main_text t) <= text_limit + 3.
Proof.
  destruct (Nat.le_gt_cases (String.length t) text_limit) as [H | H].
  - rewrite main_text_short by done. lia.
  - destruct (main_text_long t H) as [_ ->]. lia.
Qed.

(** A successful run of the "text" branch hands back [main_text] of a
    text the page gave. *)
Lemma extract_text_success {W} (env : Env W) locator_str s r s' :
  extract_text env locator_str s = (Ret r, s') ->
  status r = SUCCESS ->
  exists title url text_content el w w',
    loc_text_content env el w = (Ret (Some text_content), w')
    /\ r = mkResult SUCCESS (Text "Extracted text content") None None
             (Some (DataText title url (main_text text_content))).
Proof.
  unfold extract_text, bind, require_text, gets, call, ret, raise.
  intros E Hst.
  repeat case_match; simplify_eq/=; try done; eauto 10.
Qed.

(** C6. A successful extraction of type "text" returns at most 2003
    characters: the text content itself when it has at most 2000
    characters, and otherwise its first 2000 characters followed by the
    three characters "...". *)
Theorem extract_text_at_most_2003 {W} (env : Env W)
    (locator_str : option string) (s s' : State W) (r : ActionResult) :
  extract_content env "text" locator_str s = (Ret r, s') ->
  status r = SUCCESS ->
  exists title url text_content,
    data r = Some (DataText title url (main_text text_content))
    /\ (exists el w w',
          loc_text_content env el w = (Ret (Some text_content), w'))
    /\ String.length (main_text text_content) <= 2003
    /\ (String.length text_content <= 2000 -> main_text text_content = text_content)
    /\ (2000 < String.length text_content ->
        main_text text_content = slice_to 2000 text_content +:+ "..."
        /\ String.length (slice_to 2000 text_content) = 2000
        /\ String.length (main_text text_content) = 2003).
Proof.
  unfold extract_content. cbn [String.eqb Ascii.eqb Bool.eqb].
  unfold protect, try_catch. intros E Hst.
  destruct (extract_text env locator_str s) as [[r0 | e] s0] eqn:Et.
  2:{ injection E as <- <-. discriminate Hst. }
  injection E as <- <-.
  destruct (extract_text_success env _ _ _ _ Et Hst)
    as (title & url & t & el & w & w' & Hread & ->).
  exists title, url, t. split; [done |]. split; [by eauto |].
  split; [apply (main_text_bounded t) |]. split.
  - apply main_text_short.
  - intros H. destruct (main_text_long t H) as [E1 E2].
    split; [done |]. split; [| done].
    rewrite length_slice_to. change text_limit with 2000 in *. lia.
Qed.

Lemma extract_text_at_most_2003_witness :
  exists r s',
    extract_content Demo.env "text" None Demo.start_long = (Ret r, s')
    /\ status r = SUCCESS
    /\ exists title url,
         data r = Some (DataText title url
                          (slice_to 2000 Demo.long_body +:+ "..."))
         /\ String.length (slice_to 2000 Demo.long_body +:+ "...") = 2003.
Proof.
  destruct (extract_content Demo.env "text" None Demo.start_long)
    as [[r | e] s'] eqn:E; [| by vm_compute in E].
  assert (Hst : status r = SUCCESS).
  { vm_compute in E. by injection E as <- _. }
  exists r, s'. split; [done |]. split; [done |].
  destruct (extract_text_at_most_2003 Demo.env None _ _ _ E Hst)
    as (title & url & t & Hdata & _ & _ & _ & _).
  assert (Ht : main_text t = slice_to 2000 Demo.long_body +:+ "...").
  { vm_compute in E. injection E as <- _. simpl in Hdata.
    injection Hdata as _ _ <-. by vm_compute. }
  exists title, url. rewrite <- Ht. split; [done |].
  rewrite Ht. by vm_compute.
Defined.

(** ** The locator resolver *)













Example resolver_index_in_range :
  (find_element_by_locator Demo.env (Some "button") None 1 (Demo.start [] false)).1
  = Ret (Some (Nth (Loc "button") 1)).
Proof. by vm_compute. Qed.

Example resolver_negative_index :
  (find_element_by_locator Demo.env (Some "button") None (-1) (Demo.start [] false)).1
  = Ret (Some (First (Loc "button"))).
Proof. by vm_compute. Qed.

(** ** Relations kept by the crawler and the control loop *)

Section FramedPlanner.

Context {W : Type} (env : Env W).
Context (R : relation (State W)) (allowed : Event -> Prop) `{!Frame R allowed}.

Lemma preserves_collect_urls url l acc : preserves R (collect_urls env url l acc).
Proof. revert acc. induction l as [| x l IH]; intros acc; simpl; framed. Qed.

Lemma preserves_explore_page url : preserves R (explore_page env url).
Proof.
  unfold explore_page.
  framed_with
    ltac:(first [ by eapply preserves_take_screenshot
                | by eapply preserves_extract_content
                | by eapply preserves_add_memory
                | by eapply preserves_collect_urls ]).
Qed.

Lemma preserves_summarize_entries l : preserves R (summarize_entries l).
Proof. induction l as [| x l IH]; simpl; framed. Qed.

Lemma preserves_summarize_action_history :
  preserves R (@summarize_action_history W).
Proof.
  unfold summarize_action_history.
  framed_with ltac:(apply preserves_summarize_entries).
Qed.

Lemma preserves_parse_response response : preserves R (parse_response env response).
Proof. unfold parse_response, decode. framed. Qed.

Lemma preserves_ask_next_action prompt : preserves R (ask_next_action env prompt).
Proof.
  unfold ask_next_action. framed_with ltac:(apply preserves_parse_response).
Qed.

Lemma preserves_get_next_action f t n :
  preserves R (get_next_action_from_gemini env f t n).
Proof.
  unfold get_next_action_from_gemini, next_action_prompt.
  framed_with
    ltac:(first [ apply preserves_summarize_action_history
                | apply preserves_ask_next_action ]).
Qed.

Lemma preserves_get_recovery_action f m t :
  preserves R (get_recovery_action env f m t).
Proof.
  unfold get_recovery_action.
  framed_with
    ltac:(first [ apply preserves_summarize_action_history
                | apply preserves_parse_response ]).
Qed.

Lemma preserves_generate_task_summary t :
  preserves R (generate_task_summary env t).
Proof.
  unfold generate_task_summary.
  framed_with
    ltac:(first [ by eapply preserves_take_screenshot
                | by eapply preserves_extract_content ]).
Qed.

Lemma preserves_needs_start_page : preserves R (@needs_start_page W).
Proof. unfold needs_start_page. framed. Qed.

End FramedPlanner.

Section FramedLoop.

Context {W : Type} (env : Env W).
Context (R : relation (State W)) (allowed : Event -> Prop)
  `{!LoopFrame R allowed}.
Hypothesis allowed_rest : forall e, ~ is_iteration e -> allowed e.

Ltac rest_allowed := intros; apply allowed_rest; simpl; tauto.

Lemma preserves_navigate url : preserves R (navigate_to_url env url).
Proof. eapply preserves_navigate_to_url; [typeclasses eauto | rest_allowed ..]. Qed.

Lemma preserves_execute p : preserves R (execute_action env p).
Proof. eapply preserves_execute_action; [typeclasses eauto | rest_allowed ..]. Qed.

Lemma preserves_explore_body recur url :
  (forall next_url, preserves R (recur next_url)) ->
  preserves R (explore_body env recur url).
Proof.
  intros Hr. unfold explore_body.
  framed_with
    ltac:(first [ eapply preserves_emit; [typeclasses eauto | rest_allowed]
                | apply preserves_navigate
                | eapply preserves_explore_page; typeclasses eauto
                | apply preserves_for_each; [typeclasses eauto | done]
                | apply preserves_modify; intros ?; apply frame_explored ]).
Qed.

Lemma preserves_explore_frames budget url max_depth current_depth :
  preserves R (explore_frames env budget url max_depth current_depth).
Proof.
  revert url current_depth.
  induction budget as [| budget IH]; intros url current_depth; simpl;
    framed_with
      ltac:(first [ eapply preserves_emit; [typeclasses eauto | rest_allowed]
                  | apply preserves_explore_body; intros ?; apply IH ]).
Qed.

Lemma preserves_explore_website url max_depth current_depth :
  preserves R (explore_website env url max_depth current_depth).
Proof. apply preserves_explore_frames. Qed.

Lemma preserves_recover task st : preserves R (recover env task st).
Proof.
  unfold recover, action_of.
  framed_with
    ltac:(first [ eapply preserves_take_screenshot; typeclasses eauto
                | eapply preserves_get_recovery_action; typeclasses eauto
                | apply preserves_execute ]).
Qed.

Lemma preserves_act_on task action p retry :
  preserves R (act_on env task action p retry).
Proof.
  unfold act_on.
  framed_with
    ltac:(first [ apply preserves_explore_website
                | apply preserves_execute
                | apply preserves_recover
                | apply preserves_modify; intros ?; apply frame_captcha ]).
Qed.

Lemma preserves_task_iteration task step retry :
  allowed (EvIteration step retry) ->
  preserves R (task_iteration env task step retry).
Proof.
  intros Hit. unfold task_iteration, action_of, record_step.
  framed_with
    ltac:(first [ eapply preserves_emit; [typeclasses eauto | done]
                | eapply preserves_take_screenshot; typeclasses eauto
                | eapply preserves_get_next_action; typeclasses eauto
                | apply preserves_act_on
                | apply preserves_modify; intros ?; apply frame_history ]).
Qed.

End FramedLoop.

(** Relations that tolerate a new visited URL and every event but the
    entry of an iteration, and need not tolerate a new record of the
    history. *)
Section FramedSteps.

Context {W : Type} (env : Env W).
Context (R : relation (State W)) (allowed : Event -> Prop) `{!Frame R allowed}.
Hypothesis allowed_rest : forall e, ~ is_iteration e -> allowed e.

Ltac rest_allowed := intros; apply allowed_rest; simpl; tauto.
Hypothesis tolerates_explored :
  forall s x, R s (set_explored_urls ({[x]} ∪ explored_urls s) s).

Lemma steps_navigate url : preserves R (navigate_to_url env url).
Proof.
  eapply preserves_navigate_to_url; [typeclasses eauto | rest_allowed ..].
Qed.

Lemma steps_execute p : preserves R (execute_action env p).
Proof.
  eapply preserves_execute_action; [typeclasses eauto | rest_allowed ..].
Qed.

Lemma steps_explore_body recur url :
  (forall next_url, preserves R (recur next_url)) ->
  preserves R (explore_body env recur url).
Proof.
  intros Hr. unfold explore_body.
  framed_with
    ltac:(first [ eapply preserves_emit; [typeclasses eauto | rest_allowed]
                | apply steps_navigate
                | eapply preserves_explore_page; typeclasses eauto
                | apply preserves_for_each; [typeclasses eauto | done]
                | apply preserves_modify; intros ?; apply tolerates_explored ]).
Qed.

Lemma steps_explore_frames budget url max_depth current_depth :
  preserves R (explore_frames env budget url max_depth current_depth).
Proof.
  revert url current_depth.
  induction budget as [| budget IH]; intros url current_depth; simpl;
    framed_with
      ltac:(first [ eapply preserves_emit; [typeclasses eauto | rest_allowed]
                  | apply steps_explore_body; intros ?; apply IH ]).
Qed.

Lemma steps_recover task st : preserves R (recover env task st).
Proof.
  unfold recover, action_of.
  framed_with
    ltac:(first [ eapply preserves_take_screenshot; typeclasses eauto
                | eapply preserves_get_recovery_action; typeclasses eauto
                | apply steps_execute ]).
Qed.

Lemma steps_act_on task action p retry :
  preserves R (act_on env task action p retry).
Proof.
  unfold act_on, explore_website.
  framed_with
    ltac:(first [ apply steps_explore_frames
                | apply steps_execute
                | apply steps_recover
                | apply preserves_modify; intros ?; apply frame_captcha ]).
Qed.

End FramedSteps.

(** ** The site crawler *)

Lemma added_app l1 l2 : added (l1 ++ l2) = added l1 ++ added l2.
Proof. apply omap_app. Qed.

Lemma frames_app stack l1 l2 :
  frames stack (l1 ++ l2) = frames stack l1 ≫= fun stack' => frames stack' l2.
Proof.
  revert stack. induction l1 as [| e l1 IH]; intros stack; [done |].
  destruct e; simpl; try apply IH.
  - destruct (match stack with [] => true | p :: _ => depth =? p + 1 end);
      [apply IH | done].
  - destruct stack as [| top stack']; [done |].
    destruct (top =? depth); [apply IH | done].
Qed.

Lemma crawl_step_same {W} max_depth stack (s s' : State W) :
  trace s' = trace s -> explored_urls s' = explored_urls s ->
  crawl_step max_depth stack s s'.
Proof.
  intros Ht He. exists []. rewrite app_nil_r, Ht, He. simpl.
  repeat split; try done.
  - by rewrite union_empty_r_L.
  - constructor.
  - intros u Hu. by apply elem_of_nil in Hu.
Qed.

Lemma crawl_step_trans {W} max_depth stack (s1 s2 s3 : State W) :
  crawl_step max_depth stack s1 s2 -> crawl_step max_depth stack s2 s3 ->
  crawl_step max_depth stack s1 s3.
Proof.
  intros (n1 & Ht1 & He1 & Hn1 & Hf1 & Hw1 & Hs1)
         (n2 & Ht2 & He2 & Hn2 & Hf2 & Hw2 & Hs2).
  exists (n1 ++ n2). rewrite added_app.
  split; [by rewrite Ht2, Ht1, app_assoc |].
  split; [by rewrite He2, He1, list_to_set_app_L, union_assoc_L |].
  split.
  { apply NoDup_app. split; [done |]. split; [| done].
    intros u Hu1 Hu2. apply (Hf2 u Hu2). rewrite He1.
    apply elem_of_union_r. by apply elem_of_list_to_set. }
  split.
  { intros u Hu. apply elem_of_app in Hu as [Hu | Hu]; [by apply Hf1 |].
    intros Hin. apply (Hf2 u Hu). rewrite He1. by apply elem_of_union_l. }
  split; [by apply Forall_app |].
  by rewrite frames_app, Hs1.
Qed.

#[global] Instance crawl_step_frame {W} max_depth stack :
  Frame (@crawl_step W max_depth stack) outside_crawl.
Proof.
  split.
  - split; [by intros s; apply crawl_step_same |].
    intros s1 s2 s3. apply crawl_step_trans.
  - intros s w. by apply crawl_step_same.
  - intros s n. by apply crawl_step_same.
  - intros s m. by apply crawl_step_same.
  - intros s b. by apply crawl_step_same.
  - intros s e He. exists [e]. split; [done |].
    assert (Ha : added [e] = []) by (by destruct e).
    rewrite Ha. simpl.
    split; [by rewrite union_empty_r_L |].
    split; [constructor |].
    split; [intros u Hu; by apply elem_of_nil in Hu |].
    split; [| by destruct e].
    constructor; [by destruct e | constructor].
Qed.

#[global] Instance same_explored_frame {W} : Frame (@same_explored W) any_event.
Proof.
  split; try by (intros; destruct s).
  split; [by intros s | intros s1 s2 s3 H1 H2; unfold same_explored in *; congruence].
Qed.

(** The guard of [explore_website]: at the depth bound, or on a URL of
    the visited set, the frame is left at once. *)
Lemma explore_frames_guard {W} (env : Env W) budget url max_depth depth
    (s : State W) :
  max_depth <= depth \/ url ∈ explored_urls s ->
  explore_frames env budget url max_depth depth s
  = (Ret tt, set_trace (trace s ++ [EvCall url depth; EvReturn url depth]) s).
Proof.
  intros Hg.
  assert (Hc : (max_depth <=? depth) || bool_decide (url ∈ explored_urls s) = true).
  { destruct Hg as [Hg | Hg].
    - apply Nat.leb_le in Hg. by rewrite Hg.
    - rewrite (bool_decide_eq_true_2 _ Hg). apply orb_true_r. }
  destruct budget; simpl; unfold bind, emit, modify, gets; simpl;
    rewrite Hc; simpl; by rewrite <- app_assoc.
Qed.

Lemma for_each_steps {W A} (R : relation (State W)) `{!PreOrder R}
    (body : A -> M W unit) (xs : list A) :
  (forall x s, exists s', body x s = (Ret tt, s') /\ R s s') ->
  forall s, exists s', for_each body xs s = (Ret tt, s') /\ R s s'.
Proof.
  intros Hb. induction xs as [| x xs IH]; intros s; simpl.
  - by exists s.
  - destruct (Hb x s) as (s1 & E1 & H1). destruct (IH s1) as (s2 & E2 & H2).
    exists s2. unfold bind. rewrite E1. split; [done | by etransitivity].
Qed.

(** The frame around the body of a working call. *)
Lemma crawl_step_bracket {W} max_depth stack url depth (s s1 s2 : State W) :
  depth < max_depth ->
  stack_admits stack depth ->
  trace s1 = trace s ++ [EvCall url depth; EvWork url depth] ->
  explored_urls s1 = explored_urls s ->
  crawl_step max_depth (depth :: stack) s1 s2 ->
  crawl_step max_depth stack s
    (set_trace (trace s2 ++ [EvReturn url depth]) s2).
Proof.
  intros Hd Hst Ht He (new & Ht2 & He2 & Hn & Hf & Hw & Hs).
  exists ([EvCall url depth; EvWork url depth] ++ new ++ [EvReturn url depth]).
  assert (Ha : added ([EvCall url depth; EvWork url depth] ++ new
                      ++ [EvReturn url depth]) = added new).
  { rewrite !added_app. simpl. by rewrite app_nil_r. }
  rewrite Ha.
  split; [simpl; by rewrite Ht2, Ht, <- !app_assoc |].
  split; [simpl; by rewrite He2, He |].
  split; [done |].
  split; [intros u Hu; rewrite <- He; by apply Hf |].
  split.
  { apply Forall_app. split; [by repeat constructor |].
    apply Forall_app. split; [done | by repeat constructor]. }
  assert (Hadm : match stack with [] => true | p :: _ => depth =? p + 1 end = true).
  { destruct stack; [done |]. simpl in Hst. by apply Nat.eqb_eq. }
  cbn [app frames]. rewrite Hadm, frames_app, Hs. simpl.
  by rewrite Nat.eqb_refl.
Qed.

Lemma crawl_step_guard {W} max_depth stack url depth (s : State W) :
  stack_admits stack depth ->
  crawl_step max_depth stack s
    (set_trace (trace s ++ [EvCall url depth; EvReturn url depth]) s).
Proof.
  intros Hst. exists [EvCall url depth; EvReturn url depth].
  split; [done |]. simpl.
  split; [by rewrite union_empty_r_L |].
  split; [constructor |].
  split; [intros u Hu; by apply elem_of_nil in Hu |].
  split; [by repeat constructor |].
  assert (Hadm : match stack with [] => true | p :: _ => depth =? p + 1 end = true).
  { destruct stack; [done |]. simpl in Hst. by apply Nat.eqb_eq. }
  by rewrite Hadm, Nat.eqb_refl.
Qed.

Lemma crawl_step_add {W} max_depth stack url (s : State W) :
  url ∉ explored_urls s ->
  crawl_step max_depth stack s
    (set_explored_urls ({[url]} ∪ explored_urls s)
       (set_trace (trace s ++ [EvAdd url]) s)).
Proof.
  intros Hu. exists [EvAdd url]. split; [done |]. simpl.
  split; [by rewrite union_empty_r_L, (comm_L union) |].
  split; [apply NoDup_singleton |].
  split; [intros u Hin; apply list_elem_of_singleton in Hin; by subst |].
  split; [by repeat constructor | done].
Qed.

(** The body of a working frame, given what the recursive calls do. *)
Lemma explore_body_crawl {W} (env : Env W) max_depth stack
    (recur : string -> M W unit) url (s : State W) :
  url ∉ explored_urls s ->
  (forall x s0, exists s1,
      recur x s0 = (Ret tt, s1) /\ crawl_step max_depth stack s0 s1) ->
  exists s',
    explore_body env recur url s = (Ret tt, s')
    /\ crawl_step max_depth stack s s'.
Proof.
  intros Hu Hrec. unfold explore_body, try_catch, bind at 1.
  destruct (navigate_never_raises env url s) as (r & s_nav & En). rewrite En.
  assert (Hnav : crawl_step max_depth stack s s_nav).
  { pose proof (preserves_navigate_to_url env (crawl_step max_depth stack)
                  outside_crawl url) as H.
    specialize (H ltac:(done) ltac:(done) s). by rewrite En in H. }
  assert (Hexp : explored_urls s_nav = explored_urls s).
  { pose proof (preserves_navigate_to_url env same_explored any_event url) as H.
    specialize (H ltac:(done) ltac:(done) s). by rewrite En in H. }
  destruct (status r).
  2:{ exists s_nav. by split. }
  unfold bind at 1, emit, modify. unfold bind at 1. cbn [explored_urls set_trace].
  set (s_add := set_explored_urls _ _).
  assert (Hadd : crawl_step max_depth stack s_nav s_add).
  { apply crawl_step_add. by rewrite Hexp. }
  unfold bind.
  pose proof (preserves_explore_page env (crawl_step max_depth stack)
                outside_crawl url s_add) as Hpage.
  destruct (explore_page env url s_add) as [[urls | e] s_page]; simpl in Hpage.
  - destruct (for_each_steps (crawl_step max_depth stack) recur
                (set_order env urls) Hrec s_page) as (s_f & Ef & Hf).
    rewrite Ef. exists s_f. split; [done |].
    etransitivity; [exact Hnav |]. etransitivity; [exact Hadd |].
    by etransitivity.
  - exists s_page. split; [done |].
    etransitivity; [exact Hnav |]. by etransitivity.
Qed.

Lemma explore_frames_crawl {W} (env : Env W) max_depth budget :
  forall url depth stack (s : State W),
    max_depth - depth <= budget ->
    stack_admits stack depth ->
    exists s',
      explore_frames env budget url max_depth depth s = (Ret tt, s')
      /\ crawl_step max_depth stack s s'.
Proof.
  induction budget as [| budget IH]; intros url depth stack s Hb Hst.
  { rewrite explore_frames_guard by (left; lia).
    eexists. split; [done |]. by apply crawl_step_guard. }
  destruct (decide (max_depth <= depth \/ url ∈ explored_urls s)) as [Hg | Hg].
  { rewrite explore_frames_guard by done.
    eexists. split; [done |]. by apply crawl_step_guard. }
  assert (Hd : depth < max_depth) by lia.
  assert (Hu : url ∉ explored_urls s) by tauto.
  assert (Hc : (max_depth <=? depth) || bool_decide (url ∈ explored_urls s) = false).
  { rewrite (bool_decide_eq_false_2 _ Hu), orb_false_r. apply Nat.leb_gt. lia. }
  simpl. unfold bind at 1, emit at 1, modify. unfold bind at 1, gets.
  cbn [explored_urls set_trace]. rewrite Hc.
  unfold bind at 1, emit at 1, modify. unfold bind at 1.
  set (s1 := set_trace _ _).
  assert (Ht1 : trace s1 = trace s ++ [EvCall url depth; EvWork url depth]).
  { unfold s1. simpl. by rewrite <- app_assoc. }
  assert (He1 : explored_urls s1 = explored_urls s) by done.
  destruct (explore_body_crawl env max_depth (depth :: stack)
              (fun next_url => explore_frames env budget next_url max_depth (depth + 1))
              url s1) as (s2 & E2 & H2).
  { by rewrite He1. }
  { intros x s0. apply IH; [lia | simpl; lia]. }
  rewrite E2. unfold emit, modify. eexists. split; [done |].
  by eapply crawl_step_bracket.
Qed.

(** C2. One call [explore_website(url, max_depth, current_depth)] returns
    normally, and with [new] the events of the call:
    - entered at [current_depth >= max_depth] or on a URL of the visited
      set, the frame is left at once: nothing but the trace changes, and
      the trace only records the entry and the exit;
    - no URL is added to the visited set twice, and none that was in it
      before the call;
    - every frame entered inside another frame has the depth of that
      frame plus one;
    - no frame works at a depth of [max_depth] or more. *)
Theorem explore_website_bounded_without_revisit {W} (env : Env W)
    (url : string) (max_depth current_depth : nat) (s : State W) :
  exists s' new,
    explore_website env url max_depth current_depth s = (Ret tt, s')
    /\ trace s' = trace s ++ new
    /\ (max_depth <= current_depth \/ url ∈ explored_urls s ->
        s' = set_trace (trace s ++ new) s
        /\ new = [EvCall url current_depth; EvReturn url current_depth])
    /\ NoDup (added new)
    /\ (forall u, u ∈ added new -> u ∉ explored_urls s)
    /\ explored_urls s' = explored_urls s ∪ list_to_set (added new)
    /\ frames [] new = Some []
    /\ Forall (work_below max_depth) new.
Proof.
  unfold explore_website.
  destruct (explore_frames_crawl env max_depth (max_depth - current_depth)
              url current_depth [] s (le_n _) I)
    as (s' & E & new & Ht & He & Hn & Hf & Hw & Hs).
  exists s', new. split; [done |]. split; [done |].
  split; [| by repeat split].
  intros Hg. rewrite explore_frames_guard in E by done.
  injection E as <-. simpl in Ht. apply app_inv_head in Ht as <-. done.
Qed.

Example explore_demo_site :
  trace (explore_website Demo.env Demo.home 2 0 (Demo.start [] false)).2
  = [ EvCall "https://a.test/" 0; EvWork "https://a.test/" 0;
      EvGoto "https://a.test/"; EvDialogs; EvAdd "https://a.test/";
      EvCall "https://a.test/x" 1; EvWork "https://a.test/x" 1;
      EvGoto "https://a.test/x"; EvDialogs; EvAdd "https://a.test/x";
      EvCall "https://a.test/y" 2; EvReturn "https://a.test/y" 2;
      EvReturn "https://a.test/x" 1; EvReturn "https://a.test/" 0 ].
Proof. by vm_compute. Qed.

Section FramedTask.

Context {W : Type} (env : Env W).
Context (R : relation (State W)) (allowed : Event -> Prop)
  `{!LoopFrame R allowed}.
Hypothesis allowed_all : forall e, allowed e.

Lemma preserves_task_loop fuel task step retry :
  preserves R (task_loop env fuel task step retry).
Proof.
  revert step retry. induction fuel as [| fuel IH]; intros step retry; simpl;
    framed_with
      ltac:(first [ apply IH
                  | eapply preserves_task_iteration;
                    first [typeclasses eauto | by intros; apply allowed_all] ]).
Qed.

Lemma preserves_execute_task task : preserves R (execute_task env task).
Proof.
  unfold execute_task.
  framed_with
    ltac:(first [ eapply preserves_needs_start_page; typeclasses eauto
                | eapply preserves_navigate;
                  first [typeclasses eauto | by intros; apply allowed_all]
                | apply preserves_task_loop
                | eapply preserves_generate_task_summary; typeclasses eauto ]).
Qed.

End FramedTask.

(** ** The lifetime of the visited set *)

#[global] Instance explored_grows_frame {W} : LoopFrame (@explored_grows W) any_event.
Proof.
  split; [split | |];
    try (intros; unfold explored_grows; destruct s; simpl; reflexivity).
  - split; unfold explored_grows; [by intros s | intros s1 s2 s3 H1 H2].
    by etransitivity.
  - intros s x. unfold explored_grows. simpl. apply union_subseteq_r.
Qed.

(** C7, as the code has it.  The visited set belongs to the assistant and
    not to one crawl: it is empty in a fresh assistant, no crawl and no
    task ever removes a URL from it, and a call of [explore_website] on a
    URL that is in it (from this crawl or from an earlier one) is left at
    once, without a visit. *)
Theorem visited_set_outlives_crawl {W} (env : Env W) (s : State W) :
  (forall w dbg mem, explored_urls (initial_state (World:=W) w dbg mem) = ∅)
  /\ (forall url max_depth depth,
        explored_urls s ⊆ explored_urls (explore_website env url max_depth depth s).2)
  /\ (forall task, explored_urls s ⊆ explored_urls (execute_task env task s).2)
  /\ (forall url max_depth depth,
        url ∈ explored_urls s ->
        explore_website env url max_depth depth s
        = (Ret tt, set_trace (trace s ++ [EvCall url depth; EvReturn url depth]) s)).
Proof.
  split; [done |]. split; [| split].
  - intros url max_depth depth.
    by apply (preserves_explore_website env explored_grows any_event).
  - intros task. by apply (preserves_execute_task env explored_grows any_event).
  - intros url max_depth depth Hin. apply explore_frames_guard. by right.
Qed.

(** C7, as stated, fails: the home page is visited by the first crawl,
    and the second top-level crawl of the same URL is left at its guard,
    without a navigation. *)
Lemma second_crawl_skips_visited_url :
  In (EvWork Demo.home 0) (trace after_first_crawl)
  /\ In (EvGoto Demo.home) (trace after_first_crawl)
  /\ trace after_second_crawl
     = trace after_first_crawl ++ [EvCall Demo.home 0; EvReturn Demo.home 0]
  /\ world after_second_crawl = world after_first_crawl.
Proof. vm_compute. tauto. Qed.

Lemma visited_set_outlives_crawl_witness :
  Demo.home ∈ explored_urls after_first_crawl
  /\ explore_website Demo.env Demo.home 2 0 after_first_crawl
     = (Ret tt,
        set_trace (trace after_first_crawl
                   ++ [EvCall Demo.home 0; EvReturn Demo.home 0])
          after_first_crawl).
Proof.
  assert (Hin : Demo.home ∈ explored_urls after_first_crawl).
  { apply (bool_decide_unpack (Demo.home ∈ explored_urls after_first_crawl)).
    by vm_compute. }
  split; [done |].
  by apply (visited_set_outlives_crawl Demo.env after_first_crawl).
Defined.

(** ** The bounds of the control loop *)

Lemma bounded_iterations_same {W} (s s' : State W) :
  trace s' = trace s -> bounded_iterations s s'.
Proof. intros H. exists []. by rewrite app_nil_r. Qed.

#[global] Instance bounded_iterations_frame {W} :
  LoopFrame (@bounded_iterations W) iteration_ok.
Proof.
  split; [split | |]; try (intros; by apply bounded_iterations_same).
  - split; [intros s; by apply bounded_iterations_same |].
    intros s1 s2 s3 (n1 & H1 & F1) (n2 & H2 & F2).
    exists (n1 ++ n2). split; [by rewrite H2, H1, app_assoc | by apply Forall_app].
  - intros s e He. exists [e]. split; [done | by repeat constructor].
Qed.



Lemma not_loop_kind action :
  action ∉ loop_kinds ->
  String.eqb action "TASK_COMPLETE" = false
  /\ String.eqb action "MANUAL_CAPTCHA" = false
  /\ String.eqb action "EXPLORE_WEBSITE" = false
  /\ String.eqb action "RETRY" = false.
Proof.
  intros H. unfold loop_kinds in H.
  repeat split; apply String.eqb_neq; intros ->; apply H; set_solver.
Qed.









(** *** The counters from one iteration to the next *)

Lemma iterations_app t1 t2 : iterations (t1 ++ t2) = iterations t1 ++ iterations t2.
Proof.
  induction t1 as [| e t1 IH]; [done |]. destruct e; simpl; by rewrite ?IH.
Qed.

Lemma iterations_other e : ~ is_iteration e -> iterations [e] = [].
Proof. destruct e; simpl; tauto. Qed.

Lemma silent_same {W} (s s' : State W) :
  trace s' = trace s -> action_history s' = action_history s -> silent s s'.
Proof. intros Ht Hh. exists []. by rewrite app_nil_r. Qed.

#[global] Instance silent_frame {W} :
  Frame (@silent W) (fun e => ~ is_iteration e).
Proof.
  split; try (intros; by apply silent_same).
  - split; [intros s; by apply silent_same |].
    intros s1 s2 s3 (n1 & H1 & I1 & A1) (n2 & H2 & I2 & A2).
    exists (n1 ++ n2). split; [by rewrite H2, H1, app_assoc |].
    split; [by rewrite iterations_app, I1, I2 | congruence].
  - intros s e He. exists [e]. split; [done |].
    split; [by apply iterations_other | done].
Qed.







Example four_retries_end_the_task :
  let run := execute_task Demo.env "t"
               (Demo.start [Ret "retry"; Ret "retry"; Ret "retry"; Ret "retry";
                            Ret "done"] false) in
  trace run.2
  = [EvGoto "https://www.google.com"; EvDialogs; EvIteration 1 0;
     EvIteration 2 1; EvIteration 3 2; EvIteration 4 3]
  /\ length (Demo.script (world run.2)) = 1.
Proof. by vm_compute. Qed.

(** ** Failures of the planner *)

#[global] Instance same_log_frame {W} : Frame (@same_log W) no_event.
Proof.
  split; try by (intros; destruct s).
  split; [by intros s |].
  intros s1 s2 s3 [H1 H2] [H3 H4]. unfold same_log. split; congruence.
Qed.

Lemma preserves_next_action_prompt {W} (env : Env W)
    (R : relation (State W)) allowed `{!Frame R allowed} f t n :
  preserves R (next_action_prompt env f t n).
Proof.
  unfold next_action_prompt.
  framed_with ltac:(eapply preserves_summarize_action_history; typeclasses eauto).
Qed.

Lemma ask_next_action_fails {W} (env : Env W) prompt kind o w (s : State W) :
  generate_content env prompt (world s) = (o, w) ->
  planner_fails env kind o ->
  ask_next_action env prompt s = (Ret (synthesized kind), set_world w s).
Proof.
  intros Eg Hf. unfold ask_next_action, try_catch, bind, call. rewrite Eg.
  destruct kind, o as [response | e]; simpl in Hf; try done.
  destruct Hf as (json_text & text & Hs & Hj).
  unfold parse_response, bind, lift, decode. by rewrite Hs, Hj.
Qed.

Lemma dispatch_wait {W} (env : Env W) details :
  dispatch env "WAIT" (DetailsObject details)
  = wait_for env (default 3%Z (d_seconds details)).
Proof. reflexivity. Qed.

Lemma synthesized_is_wait kind :
  p_action (synthesized kind) = Some (KindStr "WAIT")
  /\ p_details (synthesized kind)
     = Some (DetailsObject (wait_details (wait_seconds kind)))
  /\ upper "WAIT" = "WAIT".
Proof. by destruct kind. Qed.

(** The synthesized WAIT in the executor: the result is the one of the
    wait of the driver. *)
Lemma execute_synthesized_wait {W} (env : Env W) kind o w2 (s : State W) :
  page_wait_for_timeout env (wait_seconds kind * 1000) (world s) = (o, w2) ->
  execute_action env (synthesized kind) s
  = (Ret (wait_outcome (wait_seconds kind) o),
     set_trace (trace s ++ [EvExecuted "WAIT"
                              (status (wait_outcome (wait_seconds kind) o))])
       (set_world w2 s)).
Proof.
  intros Ew. unfold execute_action.
  destruct (synthesized_is_wait kind) as (-> & -> & Hu).
  cbn [kind_upper from_option id]. rewrite bind_ret, Hu, dispatch_wait.
  cbn [wait_details d_seconds from_option id].
  unfold bind, protect, try_catch, wait_for, protect, try_catch, bind, call,
    emit, modify, ret.
  rewrite Ew. by destruct o as [[] | e].
Qed.

Lemma act_on_wait {W} (env : Env W) task p retry :
  act_on env task (KindStr "WAIT") p retry
  = bind (execute_action env p)
      (fun st => match status st with
                 | ERROR => recover env task st
                 | SUCCESS => ret (Continue 0)
                 end).
Proof. reflexivity. Qed.

(** C4, as the code has it.  When the response of the planner fails to
    decode, the control loop is handed a synthesized WAIT proposal of 5
    seconds, and when the call of the planner itself fails one of 10
    seconds; neither failure raises.  In both cases the step is recorded
    and the WAIT goes through the loop like any other proposal: when the
    driver executes it without an error, the iteration ends normally and
    the loop goes on with the next step; when the wait of the driver
    fails, the iteration is handed to the recovery protocol, with the
    text of the exception as the error, and the loop goes on or is left
    as the recovery decides. *)
Theorem planner_failure_degrades {W} (env : Env W) (task : string)
    (step retry : nat) (s s_b s_c : State W) (filename : string)
    (prompt : Prompt) (kind : PlannerFailure) (o : outcome string) (w : W) :
  take_screenshot env (set_trace (trace s ++ [EvIteration step retry]) s)
  = (Ret filename, s_b) ->
  next_action_prompt env filename task step s_b = (Ret prompt, s_c) ->
  generate_content env prompt (world s_c) = (o, w) ->
  planner_fails env kind o ->
  get_next_action_from_gemini env filename task step s_b
  = (Ret (synthesized kind), set_world w s_c)
  /\ p_action (synthesized kind) = Some (KindStr "WAIT")
  /\ p_details (synthesized kind)
     = Some (DetailsObject (wait_details (wait_seconds kind)))
  /\ wait_seconds DecodeFailure = 5%Z /\ wait_seconds TransportFailure = 10%Z
  /\ task_iteration env task step retry s
     = bind (record_step step (KindStr "WAIT") (synthesized kind) filename)
         (fun _ => act_on env task (KindStr "WAIT") (synthesized kind) retry)
         (set_world w s_c)
  /\ (forall w2,
        page_wait_for_timeout env (wait_seconds kind * 1000) w = (Ret tt, w2) ->
        exists s',
          task_iteration env task step retry s = (Ret (Continue 0), s')
          /\ action_history s'
             = action_history s
               ++ [history_entry step (KindStr "WAIT")
                     (DetailsObject (wait_details (wait_seconds kind)))
                     filename]
          /\ trace s'
             = trace s ++ [EvIteration step retry; EvExecuted "WAIT" SUCCESS]
          /\ forall fuel k,
               k + 1 = step -> k < max_steps ->
               task_loop env (S fuel) task k retry s
               = task_loop env fuel task step 0 s')
  /\ (forall e w2,
        page_wait_for_timeout env (wait_seconds kind * 1000) w = (Raise e, w2) ->
        exists s',
          task_iteration env task step retry s
          = recover env task (result ERROR (ExnText e)) s'
          /\ action_history s'
             = action_history s
               ++ [history_entry step (KindStr "WAIT")
                     (DetailsObject (wait_details (wait_seconds kind)))
                     filename]
          /\ trace s'
             = trace s ++ [EvIteration step retry; EvExecuted "WAIT" ERROR]).
Proof.
  intros Eshot Eprompt Egen Hfail.
  destruct (synthesized_is_wait kind) as (Hact & Hdet & _).
  assert (Eask := ask_next_action_fails env prompt kind o w s_c Egen Hfail).
  assert (Enext : get_next_action_from_gemini env filename task step s_b
                  = (Ret (synthesized kind), set_world w s_c)).
  { unfold get_next_action_from_gemini, bind. by rewrite Eprompt. }
  assert (Eiter : task_iteration env task step retry s
                  = bind (record_step step (KindStr "WAIT") (synthesized kind)
                            filename)
                      (fun _ => act_on env task (KindStr "WAIT")
                                  (synthesized kind) retry)
                      (set_world w s_c)).
  { unfold task_iteration. unfold bind at 1, emit, modify.
    unfold bind at 1. rewrite Eshot. unfold bind at 1. rewrite Enext.
    unfold bind at 1, action_of. by rewrite Hact. }
  split; [done |]. split; [done |]. split; [done |].
  split; [done |]. split; [done |]. split; [done |].
  (* the logs up to the answer of the planner *)
  pose proof (preserves_take_screenshot env same_log no_event
                (set_trace (trace s ++ [EvIteration step retry]) s)) as [Ht1 Hh1].
  rewrite Eshot in Ht1, Hh1. simpl in Ht1, Hh1.
  pose proof (preserves_next_action_prompt env same_log no_event
                filename task step s_b) as [Ht2 Hh2].
  rewrite Eprompt in Ht2, Hh2. simpl in Ht2, Hh2.
  set (s_e := set_action_history
                (action_history (set_world w s_c)
                 ++ [history_entry step (KindStr "WAIT")
                       (default (DetailsObject no_details)
                          (p_details (synthesized kind)))
                       filename])
                (set_world w s_c)).
  assert (Hrun : forall o2 w2,
            page_wait_for_timeout env (wait_seconds kind * 1000) w = (o2, w2) ->
            task_iteration env task step retry s
            = match status (wait_outcome (wait_seconds kind) o2) with
              | ERROR => recover env task (wait_outcome (wait_seconds kind) o2)
              | SUCCESS => ret (Continue 0)
              end (set_trace
                     (trace s_e
                      ++ [EvExecuted "WAIT"
                            (status (wait_outcome (wait_seconds kind) o2))])
                     (set_world w2 s_e))).
  { intros o2 w2 Ew.
    rewrite Eiter. unfold bind at 1, record_step, modify.
    fold s_e. rewrite act_on_wait. unfold bind.
    by rewrite (execute_synthesized_wait env kind o2 w2 s_e Ew). }
  assert (Hh : action_history s_e
               = action_history s
                 ++ [history_entry step (KindStr "WAIT")
                       (DetailsObject (wait_details (wait_seconds kind)))
                       filename]).
  { simpl. rewrite Hdet. simpl. by rewrite Hh2, Hh1. }
  assert (Ht : forall st, trace s_e ++ [EvExecuted "WAIT" st]
                          = trace s ++ [EvIteration step retry;
                                        EvExecuted "WAIT" st]).
  { intros st. simpl. rewrite Ht2, Ht1. simpl. by rewrite <- app_assoc. }
  split.
  - intros w2 Ew. pose proof (Hrun _ _ Ew) as Erun.
    change (status (wait_outcome (wait_seconds kind) (Ret tt))) with SUCCESS
      in Erun.
    cbv iota in Erun. unfold ret in Erun.
    eexists. split; [exact Erun |].
    split; [exact Hh |]. split; [by rewrite <- Ht |].
    intros fuel k <- Hk. simpl.
    destruct (Nat.ltb_spec k max_steps); [| lia].
    unfold bind at 1. by rewrite Erun.
  - intros e w2 Ew. pose proof (Hrun _ _ Ew) as Erun.
    change (wait_outcome (wait_seconds kind) (Raise e))
      with (result ERROR (ExnText e)) in Erun.
    change (status (result ERROR (ExnText e))) with ERROR in Erun.
    cbv iota in Erun.
    eexists. split; [exact Erun |]. split; [exact Hh |]. by rewrite <- Ht.
Qed.

(** A response that is no JSON at step 1 of a task on the demo site: the
    loop records WAIT with 5 seconds and is ready for step 2. *)
Lemma planner_failure_degrades_witness :
  exists s',
    task_iteration Demo.env "t" 1 0 (Demo.start [Ret "no json"] false)
    = (Ret (Continue 0), s')
    /\ action_history s'
       = [history_entry 1 (KindStr "WAIT") (DetailsObject (wait_details 5))
            "screenshot_1"]
    /\ trace s' = [EvIteration 1 0; EvExecuted "WAIT" SUCCESS].
Proof.
  edestruct (fun s_b s_c filename prompt =>
               planner_failure_degrades Demo.env "t" 1 0
                 (Demo.start [Ret "no json"] false) s_b s_c filename prompt
                 DecodeFailure)
    as (_ & _ & _ & _ & _ & _ & H & _).
  - vm_compute. reflexivity.
  - vm_compute. reflexivity.
  - vm_compute. reflexivity.
  - simpl. eexists _, _. split; vm_compute; reflexivity.
  - edestruct H as (s' & E & Hh & Ht & _); [vm_compute; reflexivity |].
    exists s'. split; [exact E |]. split; [exact Hh | exact Ht].
Defined.

Example api_failure_waits_ten_seconds :
  let run := task_iteration Demo.env "t" 1 0 (Demo.start [] false) in
  run.1 = Ret (Continue 0)
  /\ action_history run.2
     = [history_entry 1 (KindStr "WAIT") (DetailsObject (wait_details 10))
          "screenshot_1"].
Proof. by vm_compute. Qed.

(** C4, as stated, fails: the response at step 1 is no JSON, the
    synthesized WAIT of 5 seconds is recorded, and the driver cannot
    execute it; the error goes through the recovery protocol like the
    error of any action; the planner still gives no usable answer, the
    recovery proposal is ABORT, and the loop is left at step 1 without a
    step 2.  The same holds when the call of the planner fails. *)
Lemma failed_wait_ends_task :
  planner_fails Demo.env DecodeFailure (Ret "no json")
  /\ (task_iteration Demo.env "t" 1 0 (Demo.start [Ret "no json"] true)).1
     = Ret Break
  /\ (let run := execute_task Demo.env "t" (Demo.start [Ret "no json"] true) in
      trace run.2
      = [EvGoto "https://www.google.com"; EvDialogs; EvIteration 1 0;
         EvExecuted "WAIT" ERROR]
      /\ (exists res, run.1 = Ret (Some res) /\ tr_steps res = 1)
      /\ action_history run.2
         = [history_entry 1 (KindStr "WAIT") (DetailsObject (wait_details 5))
              "screenshot_1"])
  /\ (let run := execute_task Demo.env "t" (Demo.start [] true) in
      trace run.2
      = [EvGoto "https://www.google.com"; EvDialogs; EvIteration 1 0;
         EvExecuted "WAIT" ERROR]).
Proof.
  split; [eexists _, _; split; vm_compute; reflexivity |].
  vm_compute. repeat split; eauto.
Qed.

(** ** The task summary *)

Lemma history_entry_no_status step a d f : no_status (history_entry step a d f).
Proof. reflexivity. Qed.

#[global] Instance no_status_kept_frame {W} :
  LoopFrame (@no_status_kept W) any_event.
Proof.
  split; [split | |]; try by (intros; destruct s; intros ?).
  - split; [by intros s ? | intros s1 s2 s3 H1 H2 H; by apply H2, H1].
  - intros s step a d f H. simpl. apply Forall_app. split; [done |].
    repeat constructor.
Qed.

Lemma count_steps_none (p : gmap string Value -> bool) history :
  Forall (fun a => p a = false) history -> count_steps p history = 0.
Proof.
  unfold count_steps. induction 1 as [| a l Ha _ IH]; simpl; [done |].
  by rewrite Ha.
Qed.

Lemma no_status_counts history :
  Forall no_status history ->
  count_steps counts_as_success history = 0
  /\ count_steps (status_is "ERROR") history = 0.
Proof.
  intros H. split; apply count_steps_none; eapply Forall_impl; try exact H;
    intros a Ha; unfold counts_as_success, status_is, no_status in *;
    rewrite Ha; simpl; by rewrite ?andb_false_r.
Qed.

(** The counts of the summary are those of [count_steps] on the history. *)
Lemma generate_task_summary_counts {W} (env : Env W) task (s s' : State W) summary :
  generate_task_summary env task s = (Ret summary, s') ->
  successful_steps summary = count_steps counts_as_success (action_history s)
  /\ error_steps summary = count_steps (status_is "ERROR") (action_history s)
  /\ manual_captcha_steps summary
     = count_steps (action_is "MANUAL_CAPTCHA") (action_history s)
  /\ exploration_steps summary
     = count_steps (action_is "EXPLORE_WEBSITE") (action_history s).
Proof.
  unfold generate_task_summary, bind, gets, ret. intros E.
  repeat case_match; by simplify_eq/=.
Qed.

(** Whatever happened during the task, the summary of a run that starts
    from a history without ["status"] keys (that of a fresh assistant, or
    one written by earlier tasks) reports no successful and no failed
    step: the loop never stores the result of an action in the history
    the summary reads. *)
Lemma summary_reports_no_results {W} (env : Env W) task (s : State W) res s' :
  Forall no_status (action_history s) ->
  execute_task env task s = (Ret (Some res), s') ->
  successful_steps (tr_summary res) = 0
  /\ error_steps (tr_summary res) = 0
  /\ manual_captcha_steps (tr_summary res)
     = count_steps (action_is "MANUAL_CAPTCHA") (tr_actions res)
  /\ exploration_steps (tr_summary res)
     = count_steps (action_is "EXPLORE_WEBSITE") (tr_actions res).
Proof.
  intros Hs E. unfold execute_task in E. unfold bind at 1 in E.
  pose proof (preserves_needs_start_page no_status_kept any_event s) as H0.
  destruct (needs_start_page s) as [[start | e] s0]; simpl in H0;
    [| by simplify_eq].
  unfold bind at 1 in E.
  set (first_step := if start then _ else _) in E.
  assert (H1 : preserves no_status_kept first_step).
  { unfold first_step.
    framed_with
      ltac:(eapply preserves_navigate; first [typeclasses eauto | done]). }
  specialize (H1 s0). destruct (first_step s0) as [[[] | e] s1]; simpl in H1;
    [| by simplify_eq].
  unfold bind at 1 in E.
  pose proof (preserves_task_loop env no_status_kept any_event
                ltac:(done) max_steps task 0 0 s1) as H2.
  destruct (task_loop env max_steps task 0 0 s1) as [[[n |] | e] s2];
    simpl in H2; try by simplify_eq.
  unfold bind at 1 in E.
  pose proof (preserves_generate_task_summary env same_log no_event task s2)
    as [_ Hh].
  destruct (generate_task_summary env task s2) as [[summary | e] s3] eqn:Es;
    simpl in Hh; [| by simplify_eq].
  unfold bind, gets, ret in E. simplify_eq. simpl.
  destruct (generate_task_summary_counts env _ _ _ _ Es) as (-> & -> & -> & ->).
  destruct (no_status_counts (action_history s2)) as [-> ->];
    [by apply H2, H1, H0 |].
  by rewrite Hh.
Qed.

(** C1 on that run: the executor returned one [ERROR] (for the CLICK of
    step 1), and the summary reports 0 errors.  The history holds the
    step, without a ["status"]. *)
Theorem summary_misses_executor_error :
  trace failed_click_run.2
  = [EvGoto "https://www.google.com"; EvDialogs; EvIteration 1 0;
     EvExecuted "CLICK" ERROR]
  /\ exists res,
       failed_click_run.1 = Ret (Some res)
       /\ tr_steps res = 1
       /\ error_steps (tr_summary res) = 0
       /\ successful_steps (tr_summary res) = 0
       /\ (exists entry,
             tr_actions res = [entry]
             /\ entry !! "action" = Some (VStr "CLICK")
             /\ entry !! "status" = None).
Proof.
  split; [by vm_compute |].
  destruct failed_click_run.1 as [[res |] | e] eqn:E; try by vm_compute in E.
  exists res. split; [done |].
  vm_compute in E. injection E as <-.
  split; [done |]. split; [done |]. split; [done |].
  eexists. split; [reflexivity |]. split; by vm_compute.
Qed.

(** * Further properties of the code *)

(** ** The memory store *)

Lemma dict_set_fresh {V} k (v : V) d :
  k ∉ d.*1 -> dict_set k v d = d ++ [(k, v)].
Proof.
  induction d as [| [k' v'] d IH]; simpl; [done |].
  intros Hk. apply not_elem_of_cons in Hk as [Hne Hk].
  case_bool_decide; [by subst |]. by rewrite IH.
Qed.

Lemma dict_set_elem {V} k (v : V) d : (k, v) ∈ dict_set k v d.
Proof.
  induction d as [| [k' v'] d IH]; simpl; [apply list_elem_of_here |].
  case_bool_decide; [apply list_elem_of_here | by apply list_elem_of_further].
Qed.

Lemma dict_set_keys {V} k (v : V) d :
  k ∈ d.*1 -> (dict_set k v d).*1 = d.*1.
Proof.
  induction d as [| [k' v'] d IH]; simpl.
  - intros H. by apply elem_of_nil in H.
  - intros H. case_bool_decide as Hk; [by subst |].
    apply elem_of_cons in H as [-> | H]; [done |].
    rewrite !fmap_cons. f_equal. by apply IH.
Qed.

Lemma dict_set_other {V} k (v : V) d k' v' :
  k' <> k -> (k', v') ∈ dict_set k v d <-> (k', v') ∈ d.
Proof.
  intros Hne. induction d as [| [k0 v0] d IH]; simpl.
  - rewrite list_elem_of_singleton. split; [intros [= ? ?]; by subst |].
    intros H. by apply elem_of_nil in H.
  - case_bool_decide as Hk.
    + subst k0. rewrite !elem_of_cons. split; intros [[= ? ?] | H]; subst; tauto.
    + rewrite !elem_of_cons, IH. tauto.
Qed.

Lemma retrieve_memory_elem key category mem e :
  e ∈ retrieve_memory key category mem
  <-> e ∈ mem.*2 /\ selected key category e = true.
Proof.
  unfold retrieve_memory, selected. rewrite list_elem_of_In, filter_In.
  by rewrite <- list_elem_of_In.
Qed.

Lemma add_memory_run {W} (env : Env W) key value category (s : State W) :
  add_memory env key value category s
  = (Ret (uuid4 env (world s)).1,
     let id := (uuid4 env (world s)).1 in
     let w := (uuid4 env (world s)).2 in
     let mem := dict_set id (mkMemory key value category) (memory s) in
     set_world (write_memory_file env mem w) (set_memory mem (set_world w s))).
Proof.
  unfold add_memory, save_memory, bind, call, modify, ret.
  by destruct (uuid4 env (world s)) as [id w].
Qed.

(** X1. [add_memory] never raises, and the entry it stores is found again
    by [retrieve_memory] under its key, with its category and without a
    category. *)
Theorem add_memory_then_retrieve {W} (env : Env W) (key value category : string)
    (s : State W) :
  exists id s',
    add_memory env key value category s = (Ret id, s')
    /\ (id, mkMemory key value category) ∈ memory s'
    /\ mkMemory key value category
       ∈ retrieve_memory key (Some category) (memory s')
    /\ mkMemory key value category ∈ retrieve_memory key None (memory s').
Proof.
  rewrite add_memory_run. eexists _, _. split; [reflexivity |].
  cbn zeta.
  set (id := (uuid4 env (world s)).1).
  assert (Hin : (id, mkMemory key value category)
                ∈ dict_set id (mkMemory key value category) (memory s))
    by apply dict_set_elem.
  split; [done |].
  assert (Hv : mkMemory key value category
               ∈ (dict_set id (mkMemory key value category) (memory s)).*2).
  { apply list_elem_of_fmap. by exists (id, mkMemory key value category). }
  split; apply retrieve_memory_elem; (split; [done |]);
    unfold selected; simpl; by rewrite !String.eqb_refl.
Qed.

(** X2. With an id that is not in the store, [add_memory] appends: the
    earlier entries stay, in their order, and every lookup returns what it
    returned before, followed by the new entry when it is selected.  Keys
    are not unique: two additions under one key are both found. *)
Theorem add_memory_appends {W} (env : Env W) (key value category : string)
    (s : State W) :
  (uuid4 env (world s)).1 ∉ (memory s).*1 ->
  exists id s',
    add_memory env key value category s = (Ret id, s')
    /\ memory s' = memory s ++ [(id, mkMemory key value category)]
    /\ forall k c,
         retrieve_memory k c (memory s')
         = retrieve_memory k c (memory s)
           ++ (if selected k c (mkMemory key value category)
               then [mkMemory key value category] else []).
Proof.
  intros Hfresh. rewrite add_memory_run. eexists _, _. split; [reflexivity |].
  cbn zeta. cbn [memory set_world set_memory].
  rewrite (dict_set_fresh _ _ _ Hfresh). split; [done |].
  intros k c. unfold retrieve_memory. rewrite List.map_app, List.filter_app. simpl.
  by fold (selected k c (mkMemory key value category)).
Qed.

(** X3. With an id that is already in the store, [add_memory] overwrites
    the entry under that id in place: the ids of the store are the same,
    and the entries under the other ids are untouched. *)
Theorem add_memory_overwrites {W} (env : Env W) (key value category : string)
    (s : State W) :
  (uuid4 env (world s)).1 ∈ (memory s).*1 ->
  exists id s',
    add_memory env key value category s = (Ret id, s')
    /\ (memory s').*1 = (memory s).*1
    /\ (id, mkMemory key value category) ∈ memory s'
    /\ forall id' e, id' <> id -> (id', e) ∈ memory s' <-> (id', e) ∈ memory s.
Proof.
  intros Hin. rewrite add_memory_run. eexists _, _. split; [reflexivity |].
  cbn zeta. cbn [memory set_world set_memory].
  split; [by apply dict_set_keys |]. split; [apply dict_set_elem |].
  intros id' e Hne. by apply dict_set_other.
Qed.

(** A second save under the key of an entry that is in the store under
    another id: both entries are kept and found, in the order of the
    saves. *)
Lemma add_memory_appends_witness :
((uuid4 Demo.env (world with_old_memory)).1 ∉ (memory with_old_memory).*1)
  /\ exists id s',
       add_memory Demo.env "a.test" "Welcome" "website" with_old_memory
       = (Ret id, s')
       /\ memory s'
          = [("1111", mkMemory "a.test" "Old" "website");
             (id, mkMemory "a.test" "Welcome" "website")]
       /\ retrieve_memory "a.test" (Some "website") (memory s')
          = [mkMemory "a.test" "Old" "website";
             mkMemory "a.test" "Welcome" "website"]
       /\ retrieve_memory "a.test" (Some "general") (memory s')
          = retrieve_memory "a.test" (Some "general") (memory with_old_memory)
       /\ retrieve_memory "b.test" None (memory s') = [].
Proof.
  assert (Hfresh : (uuid4 Demo.env (world with_old_memory)).1
                   ∉ (memory with_old_memory).*1).
  { simpl. intros H. apply list_elem_of_singleton in H. discriminate H. }
  split; [exact Hfresh |].
  destruct (add_memory_appends Demo.env "a.test" "Welcome" "website"
              with_old_memory Hfresh) as (id & s' & E & Hm & Hr).
  exists id, s'. split; [exact E |]. split; [exact Hm |].
  split; [by rewrite Hr |]. split; [by rewrite Hr |]. by rewrite Hr.
Defined.

Lemma add_memory_overwrites_witness :
  exists id s',
    add_memory Demo.env "a.test" "Other" "general" after_first_memory
    = (Ret id, s')
    /\ (memory s').*1 = (memory after_first_memory).*1.
Proof.
  destruct (add_memory_overwrites Demo.env "a.test" "Other" "general"
              after_first_memory) as (id & s' & E & Hk & _).
  - apply (bool_decide_unpack
             ((uuid4 Demo.env (world after_first_memory)).1
              ∈ (memory after_first_memory).*1)).
    by vm_compute.
  - exists id, s'. split; [exact E | exact Hk].
Defined.

Lemma filter_ext_elem {A} (f g : A -> bool) (l : list A) :
  (forall x, x ∈ l -> f x = g x) -> List.filter f l = List.filter g l.
Proof.
  intros H. apply List.filter_ext_in. intros x Hx. apply H.
  by apply list_elem_of_In.
Qed.

Lemma filter_all {A} (f : A -> bool) (l : list A) :
  (forall x, f x = true) -> List.filter f l = l.
Proof.
  intros H. induction l as [| x l IH]; [done |]. cbn [List.filter].
  by rewrite H, IH.
Qed.

Lemma filter_twice {A} (f g : A -> bool) (l : list A) :
  List.filter f (List.filter g l) = List.filter (fun x => g x && f x) l.
Proof.
  induction l as [| x l IH]; [done |]. cbn [List.filter].
  destruct (g x); cbn [andb List.filter]; [destruct (f x) |]; by rewrite IH.
Qed.

Lemma foldl_dict_del {V} (ks : list string) (d : list (string * V)) :
  foldl (fun d k => dict_del k d) d ks
  = List.filter (fun kv => negb (bool_decide (kv.1 ∈ ks))) d.
Proof.
  revert d. induction ks as [| k ks IH]; intros d; cbn [foldl].
  - symmetry. apply filter_all. intros kv.
    rewrite bool_decide_eq_false_2; [done | apply not_elem_of_nil].
  - rewrite IH. unfold dict_del. rewrite filter_twice.
    apply List.filter_ext. intros kv.
    destruct (String.eqb_spec kv.1 k) as [Hk | Hk]; cbn [negb andb].
    + rewrite bool_decide_eq_true_2; [done |]. rewrite Hk. apply list_elem_of_here.
    + f_equal. apply bool_decide_ext. rewrite elem_of_cons. tauto.
Qed.

(** In a dictionary, deleting the ids of the entries of a category
    leaves the entries of the other categories. *)
Lemma delete_category (c : string) (d : list (string * MemoryEntry)) :
  NoDup d.*1 ->
  foldl (fun d k => dict_del k d) d
    (map fst (List.filter (fun kv => String.eqb (m_category kv.2) c) d))
  = other_categories c d.
Proof.
  intros Hnd. rewrite foldl_dict_del. unfold other_categories.
  apply filter_ext_elem. intros [k e] Hin. simpl. f_equal.
  destruct (String.eqb_spec (m_category e) c) as [Hc | Hc].
  - apply bool_decide_eq_true_2. apply list_elem_of_fmap.
    exists (k, e). split; [done |].
    apply list_elem_of_In, filter_In. split; [by apply list_elem_of_In |].
    simpl. by apply String.eqb_eq.
  - apply bool_decide_eq_false_2. intros H.
    apply list_elem_of_fmap in H as ([k' e'] & Hk & H'). simpl in Hk. subst k'.
    apply list_elem_of_In, filter_In in H' as [H' Hc']. simpl in Hc'.
    apply list_elem_of_In in H'.
    assert (e = e'); [| subst e'; apply String.eqb_eq in Hc'; done].
    clear -Hnd Hin H'. induction d as [| [k0 e0] d IH]; [by apply elem_of_nil in Hin |].
    rewrite fmap_cons in Hnd. apply NoDup_cons in Hnd as [Hk0 Hnd].
    apply elem_of_cons in Hin as [Hin | Hin], H' as [H' | H'].
    + congruence.
    + injection Hin as -> ->. exfalso. apply Hk0.
      apply list_elem_of_fmap. by exists (k0, e').
    + injection H' as -> ->. exfalso. apply Hk0.
      apply list_elem_of_fmap. by exists (k0, e).
    + by apply IH.
Qed.

Lemma retrieve_other_categories key c c' mem :
  c' <> c ->
  retrieve_memory key (Some c') (other_categories c mem)
  = retrieve_memory key (Some c') mem.
Proof.
  intros Hne. unfold retrieve_memory, other_categories.
  induction mem as [| [k e] mem IH]; simpl; [done |].
  destruct (String.eqb_spec (m_category e) c) as [Hc | Hc]; simpl.
  - rewrite IH. destruct (String.eqb_spec (m_category e) c') as [Hc' | _];
      [congruence | by rewrite andb_false_r].
  - by rewrite IH.
Qed.

Lemma retrieve_cleared_category key c mem :
  retrieve_memory key (Some c) (other_categories c mem) = [].
Proof.
  unfold retrieve_memory, other_categories.
  induction mem as [| [k e] mem IH]; simpl; [done |].
  destruct (String.eqb_spec (m_category e) c) as [Hc | Hc]; simpl; [done |].
  rewrite IH. destruct (String.eqb_spec (m_category e) c) as [? | _]; [done |].
  by rewrite andb_false_r.
Qed.

(** X4. [clear_memory] never raises.  Without a category, and also with
    the empty string as category, it empties the store.  With a non-empty
    category it removes the entries of that category and nothing else:
    lookups in that category find nothing, lookups in any other category
    find what they found before. *)
Theorem clear_memory_behaviour {W} (env : Env W) (category : option string)
    (s : State W) :
  exists s',
    clear_memory env category s = (Ret tt, s')
    /\ (category = None \/ category = Some EmptyString -> memory s' = [])
    /\ (forall c,
          category = Some c -> c <> EmptyString -> NoDup (memory s).*1 ->
          memory s' = other_categories c (memory s)
          /\ (forall key, retrieve_memory key (Some c) (memory s') = [])
          /\ (forall key c',
                c' <> c ->
                retrieve_memory key (Some c') (memory s')
                = retrieve_memory key (Some c') (memory s))).
Proof.
  unfold clear_memory, save_memory, bind.
  destruct (truthy category) eqn:Ht; unfold modify;
    (eexists; split; [reflexivity |]); cbn [memory set_world set_memory].
  - split.
    + intros [-> | ->]; discriminate Ht.
    + intros c -> Hc Hnd. cbn [from_option id].
      rewrite delete_category by done.
      split; [done |]. split.
      * intros key. apply retrieve_cleared_category.
      * intros key c' Hne. by apply retrieve_other_categories.
  - split; [done |].
    intros c -> Hc. destruct c; [done | discriminate Ht].
Qed.

Example clear_memory_empty_category :
  memory (clear_memory Demo.env (Some EmptyString) after_first_memory).2 = []
  /\ memory (clear_memory Demo.env (Some "general") after_first_memory).2
     = memory after_first_memory.
Proof. by vm_compute. Qed.

(** ** The primitives of the executor *)

Lemma typed_is_not_no_text a :
  Text ("Typed '" +:+ a) <> Text "No text provided to type".
Proof. simpl. discriminate. Qed.

(** X5. [type_text] never raises; it answers "No text provided to type"
    exactly when the text is missing or empty, and then it is an [ERROR]
    that leaves the assistant and the page as they were. *)
Theorem type_text_requires_text {W} (env : Env W)
    (locator_str text : option string) (s : State W) :
  exists r s',
    type_text env locator_str text s = (Ret r, s')
    /\ (message r = Text "No text provided to type" <-> truthy text = false)
    /\ (truthy text = false -> status r = ERROR /\ s' = s).
Proof.
  unfold type_text. destruct (truthy text) eqn:Ht; cbn [negb].
  2:{ eexists _, _. split; [reflexivity |]. by simpl. }
  unfold protect, try_catch.
  match goal with |- context [?m s] => destruct (m s) as [[r | e] s1] eqn:E end.
  - exists r, s1. split; [done |]. split; [| done].
    split; [| done]. intros Hm. exfalso.
    unfold bind, call, ret in E.
    repeat case_match; simplify_eq/=; by apply typed_is_not_no_text in Hm.
  - eexists _, _. split; [reflexivity |]. by simpl.
Qed.

Lemma find_loop_nothing_to_search {W} (env : Env W) polls l t index (s : State W) :
  truthy l = false -> truthy t = false ->
  find_loop env polls l t index s = (Ret None, s).
Proof.
  intros Hl Ht. induction polls as [| polls IH]; simpl; [done |].
  unfold bind, try_catch, find_attempt, bind. rewrite Hl, Ht. simpl. exact IH.
Qed.

(** X6. A click with neither a locator nor a text to search for (both
    missing or empty, as in a CLICK proposal without details) fails with
    "Element not found" and never touches the page, whatever the page
    shows. *)
Theorem click_without_target {W} (env : Env W)
    (locator_str text : option string) (index : Z) (s : State W) :
  truthy locator_str = false -> truthy text = false ->
  click_element env locator_str text index s
  = (Ret (result ERROR
            (Text ("Element not found for click: locator='"
                   +:+ str_opt locator_str +:+ "', text='"
                   +:+ str_opt text +:+ "'"))), s)
  /\ forall r m,
       execute_action env (mkProposal (Some (KindStr "CLICK")) None r m) s
       = (Ret (result ERROR
                 (Text "Element not found for click: locator='', text=''")),
          set_trace (trace s ++ [EvExecuted "CLICK" ERROR]) s).
Proof.
  intros Hl Ht.
  assert (Hc : forall l t i, truthy l = false -> truthy t = false ->
            click_element env l t i s
            = (Ret (result ERROR
                      (Text ("Element not found for click: locator='"
                             +:+ str_opt l +:+ "', text='"
                             +:+ str_opt t +:+ "'"))), s)).
  { intros l t i Hl' Ht'.
    unfold click_element, protect, try_catch, bind at 1,
      find_element_by_locator, bind at 1, gets.
    by rewrite find_loop_nothing_to_search. }
  split; [by apply Hc |].
  intros r m. unfold execute_action.
  cbn [p_action p_details kind_upper from_option id].
  change (upper "CLICK") with "CLICK". rewrite bind_ret.
  unfold bind, protect, try_catch.
  change (dispatch env "CLICK" (DetailsObject no_details))
    with (click_element env (Some EmptyString) (Some EmptyString) 0%Z).
  by rewrite Hc.
Qed.

Lemma click_without_target_witness :
  click_element Demo.env None (Some EmptyString) 0 (Demo.start [] false)
  = (Ret (result ERROR
            (Text "Element not found for click: locator='None', text=''")),
     Demo.start [] false).
Proof.
  by apply (click_without_target Demo.env None (Some EmptyString) 0
              (Demo.start [] false)).
Defined.

Lemma probe_nothing {W} (env : Env W) selector index colour (s : State W) :
  (forall w, match (loc_count env (Loc selector) w).1 with
             | Ret n => n = 0
             | Raise _ => True
             end) ->
  nothing_found (probe env selector index colour s).1.
Proof.
  intros H. unfold probe, bind, call. specialize (H (world s)).
  destruct (loc_count env (Loc selector) (world s)) as [[n | e] w]; simpl in H;
    [by subst n | done].
Qed.

Lemma probe_strategies_nothing {W} (env : Env W) strategies index (s : State W) :
  nothing_matches env strategies ->
  nothing_found (probe_strategies env strategies index s).1.
Proof.
  revert s. induction strategies as [| x l IH]; intros s H; simpl; [done |].
  unfold bind.
  pose proof (probe_nothing env x index "blue" s) as E.
  destruct (probe env x index "blue" s) as [[[el |] | e] s1]; simpl in E.
  - apply E. intros w. apply H. apply list_elem_of_here.
  - apply IH. intros sel w Hin. apply H. by apply list_elem_of_further.
  - done.
Qed.

Lemma find_attempt_nothing {W} (env : Env W) l t index (s : State W) :
  nothing_matches env (candidates l t index) ->
  nothing_found (find_attempt env l t index s).1.
Proof.
  unfold candidates, find_attempt. intros H. unfold bind.
  destruct (truthy l) eqn:Hl.
  - pose proof (probe_nothing env (default EmptyString l) index "red" s) as E.
    destruct (probe env _ index "red" s) as [[[el |] | e] s1]; simpl in E.
    + apply E. intros w. apply H. apply elem_of_app. left. apply list_elem_of_here.
    + destruct (truthy t); [| done].
      apply probe_strategies_nothing. intros sel w Hin. apply H.
      apply elem_of_app. by right.
    + done.
  - unfold ret at 1. destruct (truthy t); [| done].
    apply probe_strategies_nothing. intros sel w Hin. apply H.
    apply elem_of_app. by right.
Qed.

Lemma find_loop_never_raises {W} (env : Env W) polls l t index :
  never_raises (find_loop env polls l t index).
Proof.
  induction polls as [| polls IH]; simpl; [apply never_raises_ret |].
  apply never_raises_bind.
  - apply never_raises_try_catch. intros e. apply never_raises_ret.
  - intros [el |]; [apply never_raises_ret | apply IH].
Qed.

Lemma find_loop_nothing {W} (env : Env W) polls l t index (s : State W) :
  nothing_matches env (candidates l t index) ->
  (find_loop env polls l t index s).1 = Ret None.
Proof.
  intros H. revert s. induction polls as [| polls IH]; intros s; simpl; [done |].
  unfold bind, try_catch.
  pose proof (find_attempt_nothing env l t index s H) as E.
  destruct (find_attempt env l t index s) as [[[el |] | e0] s1];
    simpl in E; try done; apply IH.
Qed.

(** X7. The resolver never raises: an error of the driver during a probe
    is swallowed and the search goes on.  When none of the locators it may
    query matches anything for the whole search (each count is 0 or
    raises), the result is "not found". *)
Theorem resolver_not_found {W} (env : Env W) (locator_str text : option string)
    (index : Z) (s : State W) :
  (exists found s',
     find_element_by_locator env locator_str text index s = (Ret found, s'))
  /\ (nothing_matches env (candidates locator_str text index) ->
      (find_element_by_locator env locator_str text index s).1 = Ret None).
Proof.
  unfold find_element_by_locator, bind, gets. split.
  - apply find_loop_never_raises.
  - intros H. by apply find_loop_nothing.
Qed.

Lemma resolver_not_found_witness :
  (find_element_by_locator Demo.env (Some "#missing") None 0
     (Demo.start [] false)).1 = Ret None.
Proof.
  apply (resolver_not_found Demo.env (Some "#missing") None 0
           (Demo.start [] false)).
  intros selector w Hin. simpl in Hin.
  apply list_elem_of_singleton in Hin as ->. reflexivity.
Defined.

Lemma lower_lower_char c : lower_char (lower_char c) = lower_char c.
Proof. by destruct c as [[] [] [] [] [] [] [] []]. Qed.

Lemma lower_lower s : lower (lower s) = lower s.
Proof. induction s as [| c s IH]; simpl; [done |]. by rewrite lower_lower_char, IH. Qed.

Lemma scroll_script_unknown direction amount :
  lower direction ∉ scroll_directions -> scroll_script direction amount = None.
Proof.
  intros H. unfold scroll_script, scroll_directions in *.
  repeat match goal with
         | |- context [String.eqb (lower direction) ?x] =>
             destruct (String.eqb_spec (lower direction) x) as [E | _];
             [exfalso; apply H; rewrite E; set_solver |]
         end.
  done.
Qed.
(** X8. The direction of a scroll is matched without regard to case: two
    spellings of one direction scroll the page alike.  A direction that is
    none of down, up, top, bottom, right, left is not an error: outside
    debug mode the page and the assistant are left as they were and the
    result is [SUCCESS]. *)
Theorem scroll_page_directions {W} (env : Env W) (amount : Z) (s : State W) :
  (forall d1 d2,
     lower d1 = lower d2 ->
     (scroll_page env d1 amount s).2 = (scroll_page env d2 amount s).2
     /\ returned_status (scroll_page env d1 amount s).1
        = returned_status (scroll_page env d2 amount s).1)
  /\ (forall direction,
        lower direction ∉ scroll_directions -> debug s = false ->
        scroll_page env direction amount s
        = (Ret (result SUCCESS (Text ("Scrolled " +:+ direction))), s)).
Proof.
  split.
  - intros d1 d2 E.
    assert (Hs : scroll_script d1 amount = scroll_script d2 amount)
      by (unfold scroll_script; by rewrite E).
    unfold scroll_page, protect, try_catch, bind, gets. rewrite Hs.
    destruct (scroll_script d2 amount) as [js |].
    + destruct (call (page_evaluate env js) s) as [[[] | e] s1]; [| done].
      destruct (debug s1); [| done].
      by destruct (take_screenshot env s1) as [[? | ?] ?].
    + unfold ret. destruct (debug s); [| done].
      by destruct (take_screenshot env s) as [[? | ?] ?].
  - intros direction Hd Hdbg.
    unfold scroll_page, protect, try_catch, bind, gets.
    rewrite (scroll_script_unknown _ _ Hd). unfold ret. by rewrite Hdbg.
Qed.

Lemma collect_links_spec {W} (env : Env W) indices :
  forall acc s links s',
    collect_links env indices acc s = (Ret links, s') ->
    length links <= length acc + length indices
    /\ (Forall valid_link acc -> Forall valid_link links).
Proof.
  induction indices as [| i indices IH]; intros acc s links s' H.
  - unfold collect_links, ret in H. simplify_eq. split; [lia | done].
  - cbn [collect_links] in H. unfold bind at 1 in H.
    match type of H with
    | (let (_, _) := ?m s in _) = _ => destruct (m s) as [[l1 | e] s1] eqn:E
    end; [| done].
    apply IH in H as [Hlen Hvalid].
    assert (Hstep : length l1 <= length acc + 1
                    /\ (Forall valid_link acc -> Forall valid_link l1)).
    { clear Hlen Hvalid IH. unfold try_catch, bind in E.
      destruct (call (loc_get_attribute env _ "href") s) as [[href | ?] s2];
        [| unfold ret in E; simplify_eq; split; [lia | done]].
      destruct (call (loc_text_content env _) s2) as [[[t |] | ?] s3];
        [| unfold raise, ret in E; simplify_eq; split; [lia | done]
         | unfold ret in E; simplify_eq; split; [lia | done]].
      destruct (truthy href && (1 <? String.length (strip t))) eqn:Hok;
        unfold ret in E; simplify_eq; [| split; [lia | done]].
      split; [rewrite length_app; simpl; lia |].
      intros Hacc. apply Forall_app. split; [done |].
      apply Forall_singleton. apply andb_true_iff in Hok as [Hh Ht].
      split; simpl.
      - destruct href as [[|] |]; simpl in *; done.
      - by apply Nat.ltb_lt in Ht. }
    destruct Hstep as [Hlen1 Hvalid1]. split; [simpl; lia | auto].
Qed.

(** X9. The "links" extraction never raises; when it succeeds it reports
    at most 20 links, each with a non-empty address and a stripped text of
    more than one character, and its message gives their number. *)
Theorem extract_links_capped {W} (env : Env W) (locator_str : option string)
    (s : State W) :
  exists r s',
    extract_content env "links" locator_str s = (Ret r, s')
    /\ (status r = ERROR
        \/ exists title url links,
             status r = SUCCESS
             /\ data r = Some (DataLinks title url links)
             /\ message r
                = Text ("Extracted " +:+ pretty (length links) +:+ " links")
             /\ length links <= 20
             /\ Forall valid_link links).
Proof.
  unfold extract_content. cbn [String.eqb Ascii.eqb Bool.eqb].
  unfold protect, try_catch.
  destruct (extract_links env s) as [[r | e] s'] eqn:E.
  - exists r, s'. split; [done |]. right.
    unfold extract_links, bind in E.
    destruct (call (loc_count env (Loc "a")) s) as [[n | ?] s1]; [| done].
    destruct (collect_links env _ [] s1) as [[links | ?] s2] eqn:El; [| done].
    apply collect_links_spec in El as [Hlen Hvalid].
    rewrite length_seq in Hlen. simpl in Hlen.
    destruct (call (page_title env) s2) as [[title | ?] s3]; [| done].
    unfold gets, ret in E. simplify_eq. eexists _, _, links.
    repeat split; [lia | by apply Hvalid].
  - eexists _, s'. split; [done |]. by left.
Qed.

Lemma collect_results_length {W} (env : Env W) container indices :
  forall acc s results s',
    collect_results env container indices acc s = (Ret results, s') ->
    length results <= length acc + length indices.
Proof.
  induction indices as [| i indices IH]; intros acc s results s' H.
  - unfold collect_results, ret in H. simplify_eq. lia.
  - cbn [collect_results] in H. unfold bind at 1 in H.
    match type of H with
    | (let (_, _) := ?m s in _) = _ => destruct (m s) as [[l1 | e] s1] eqn:E
    end; [| done].
    apply IH in H.
    assert (Hstep : length l1 <= length acc + 1).
    { clear H IH. unfold try_catch, bind, ret in E.
      repeat case_match; simplify_eq; rewrite ?length_app; simpl; lia. }
    simpl. lia.
Qed.

Lemma probe_containers_length {W} (env : Env W) selectors :
  forall s results s',
    probe_containers env selectors [] s = (Ret results, s') ->
    length results <= 10.
Proof.
  induction selectors as [| selector selectors IH]; intros s results s' H.
  - unfold probe_containers, ret in H. simplify_eq. simpl. lia.
  - cbn [probe_containers] in H. unfold bind at 1 in H.
    destruct (call (loc_count env (Loc selector)) s) as [[n | ?] s1]; [| done].
    destruct (0 <? n); [| by eapply IH].
    unfold bind in H.
    destruct (collect_results env _ _ [] s1) as [[l | ?] s2] eqn:E; [| done].
    apply collect_results_length in E. rewrite length_seq in E. simpl in E.
    destruct l; [by eapply IH |]. unfold ret in H. simplify_eq. lia.
Qed.

(** X10. The "search_results" extraction never raises; when it succeeds
    it reports at most 10 results, all read under one container selector,
    and its message gives their number. *)
Theorem extract_search_results_capped {W} (env : Env W)
    (locator_str : option string) (s : State W) :
  exists r s',
    extract_content env "search_results" locator_str s = (Ret r, s')
    /\ (status r = ERROR
        \/ exists query url results,
             status r = SUCCESS
             /\ data r = Some (DataResults query url results)
             /\ message r
                = Text ("Extracted " +:+ pretty (length results)
                        +:+ " search results")
             /\ length results <= 10).
Proof.
  unfold extract_content. cbn [String.eqb Ascii.eqb Bool.eqb].
  unfold protect, try_catch.
  destruct (extract_search_results env s) as [[r | e] s'] eqn:E.
  - exists r, s'. split; [done |]. right.
    unfold extract_search_results, bind in E.
    destruct (probe_containers env _ [] s) as [[results | ?] s1] eqn:Ep; [| done].
    apply probe_containers_length in Ep.
    destruct (call (page_title env) s1) as [[title | ?] s2]; [| done].
    unfold gets, ret in E. simplify_eq. eexists _, _, results.
    by repeat split.
  - eexists _, s'. split; [done |]. by left.
Qed.

(** On the test page two of the three anchors carry an address. *)
Example extract_links_demo :
  (extract_content Demo.env "links" None (Demo.start [] false)).1
  = Ret (mkResult SUCCESS (Text "Extracted 2 links") None None
           (Some (DataLinks "A test page" Demo.home
                    [("https://a.test/x", "Welcome"); (Demo.home, "Welcome")]))).
Proof. reflexivity. Qed.

Lemma dismiss_step_clicks {W} (env : Env W) (clicks : W -> nat)
    (H : counts_clicks env clicks) selector s :
  exists stop s1,
    try_catch
      (bind (call (loc_count env (Loc selector))) (fun n =>
         if 0 <? n then
           bind (call (loc_is_visible env (Loc selector))) (fun visible : bool =>
             if visible
             then bind (call (loc_click env (Loc selector))) (fun _ => ret true)
             else ret false)
         else ret false))
      (fun _ => ret false) s = (Ret stop, s1)
    /\ (if stop then clicks (world s1) <= clicks (world s) + 1
        else clicks (world s1) = clicks (world s)).
Proof.
  destruct H as (Hcount & Hvisible & Hclick).
  unfold try_catch, bind, call, ret.
  pose proof (Hcount (Loc selector) (world s)) as H1.
  destruct (loc_count env (Loc selector) (world s)) as [[n | ?] w1];
    simpl in H1; [| by eexists false, _].
  destruct (0 <? n); [| by eexists false, _].
  pose proof (Hvisible (Loc selector) w1) as H2. cbn [world set_world].
  destruct (loc_is_visible env (Loc selector) w1) as [[[|] | ?] w2];
    simpl in H2; [| eexists false, _; split; [done | simpl; lia] ..].
  pose proof (Hclick (Loc selector) w2) as H3. cbn [world set_world].
  destruct (loc_click env (Loc selector) w2) as [[[] | ?] w3].
  - eexists true, _. split; [done | simpl; lia].
  - eexists false, _. split; [done | simpl; lia].
Qed.

Lemma dismiss_loop_clicks {W} (env : Env W) (clicks : W -> nat)
    (H : counts_clicks env clicks) selectors :
  forall s,
    clicks (world (dismiss_loop env selectors s).2) <= clicks (world s) + 1.
Proof.
  induction selectors as [| selector selectors IH]; intros s.
  - simpl. lia.
  - cbn [dismiss_loop]. unfold bind at 1.
    destruct (dismiss_step_clicks env clicks H selector s)
      as (stop & s1 & -> & Hs).
    destruct stop; [done |]. specialize (IH s1). lia.
Qed.

(** X11. One call of [handle_dialogs] dismisses at most one dialog: for
    every measure of the page that the look-ups leave alone and that a
    successful click raises by one at most, the call raises it by one at
    most, however many of the selectors match visible elements. *)
Theorem handle_dialogs_one_click {W} (env : Env W) (clicks : W -> nat)
    (s : State W) :
  counts_clicks env clicks ->
  clicks (world (handle_dialogs env s).2) <= clicks (world s) + 1.
Proof.
  intros H. unfold handle_dialogs, bind, emit, modify.
  apply (dismiss_loop_clicks env clicks H dismiss_selectors
           (set_trace (trace s ++ [EvDialogs]) s)).
Qed.

Lemma handle_dialogs_one_click_witness :
  counts_clicks Banner.env id
  /\ id (world (handle_dialogs Banner.env Banner.start).2)
     <= id (world Banner.start) + 1.
Proof.
  assert (H : counts_clicks Banner.env id).
  { repeat split; intros; simpl; lia. }
  split; [exact H | apply handle_dialogs_one_click, H].
Defined.

(** Two banners are visible, one is clicked. *)
Example handle_dialogs_two_banners :
  world (handle_dialogs Banner.env Banner.start).2 = 1.
Proof. reflexivity. Qed.

Lemma split_go_nonempty sep s : forall skip, split_go sep skip s <> [].
Proof.
  induction s as [| c s IH]; intros skip; cbn [split_go]; [done |].
  destruct skip; [| apply IH].
  destruct (startswith sep (String c s)); [done |].
  by destruct (split_go sep 0 s).
Qed.

Lemma split_first sep s : exists part, split sep s !! 0 = Some part.
Proof.
  unfold split. pose proof (split_go_nonempty sep s 0) as H.
  destruct (split_go sep 0 s) as [| part parts]; [done |]. by exists part.
Qed.

Lemma split_second sep s :
  startswith sep s = true -> sep <> EmptyString ->
  exists part, split sep s !! 1 = Some part.
Proof.
  intros H Hsep. unfold split. destruct s as [| c s].
  - destruct sep; [done | discriminate H].
  - cbn [split_go]. rewrite H.
    pose proof (split_go_nonempty sep s (String.length sep - 1)) as Hn.
    destruct (split_go sep (String.length sep - 1) s) as [| part parts];
      [done |].
    by exists part.
Qed.

Lemma prefix_shorter p q s :
  startswith (p +:+ q) s = true -> startswith p s = true.
Proof.
  unfold startswith. revert s.
  induction p as [| a p IH]; intros s H; [destruct s; reflexivity |].
  change (String a p +:+ q) with (String a (p +:+ q)) in H.
  destruct s as [| b s]; cbn [String.prefix] in *; [done |].
  destruct (ascii_dec a b); [by apply IH | done].
Qed.

(** X12. Removing the code fence from a response never fails: the
    indexing of the parts of [split] cannot raise [IndexError], whatever
    the model answered, and a response that does not start with a fence is
    handed to the decoder as it is. *)
Theorem strip_fences_never_raises (response_text : string) :
  (exists json_text, strip_fences response_text = Ret json_text)
  /\ (startswith "```" response_text = false ->
      strip_fences response_text = Ret response_text).
Proof.
  unfold strip_fences. split.
  - destruct (startswith "```json" response_text) eqn:H1.
    + destruct (split_second "```json" response_text H1) as [rest ->]; [done |].
      destruct (split_first "```" rest) as [part ->]. by eexists.
    + destruct (startswith "```" response_text) eqn:H2; [| by eexists].
      destruct (split_second "```" response_text H2) as [part ->]; [done |].
      by eexists.
  - intros H. rewrite H.
    destruct (startswith "```json" response_text) eqn:H1; [| done].
    apply (prefix_shorter "```" "json") in H1. congruence.
Qed.

(** X13. A proposal of the main planner whose kind the executor only
    acknowledges, and that the loop does not handle itself, has no effect
    and does not end the task: [ABORT], or a loop kind in another case such
    as [task_complete], is answered with [SUCCESS] and the loop goes on
    with the retry counter reset. *)
Theorem acknowledged_kind_continues {W} (env : Env W) (task action : string)
    (p : Proposal) (retry : nat) (s : State W) :
  action ∉ loop_kinds ->
  upper action ∈ acknowledged_kinds ->
  p_action p = Some (KindStr action) ->
  act_on env task (KindStr action) p retry s
  = (Ret (Continue 0),
     set_trace (trace s ++ [EvExecuted (upper action) SUCCESS]) s).
Proof.
  intros Hloop Hack Hp.
  destruct (not_loop_kind action Hloop) as (H1 & H2 & H3 & H4).
  unfold act_on, execute_action. cbn [kind_is].
  rewrite H1, H2, H3, H4, Hp. cbn [kind_upper]. rewrite bind_ret.
  unfold acknowledged_kinds in Hack.
  repeat (apply elem_of_cons in Hack as [-> | Hack]);
    [reflexivity .. | by apply elem_of_nil in Hack].
Qed.

Lemma acknowledged_kind_continues_witness :
  ("ABORT" ∉ loop_kinds)
  /\ act_on Demo.env "find the price" (KindStr "ABORT")
       (abort_proposal "no way on") 2 (Demo.start [] false)
     = (Ret (Continue 0),
        set_trace (trace (Demo.start [] false)
                   ++ [EvExecuted (upper "ABORT") SUCCESS])
          (Demo.start [] false)).
Proof.
  assert (H : "ABORT" ∉ loop_kinds) by (unfold loop_kinds; set_solver).
  split; [exact H |].
  apply (acknowledged_kind_continues Demo.env _ "ABORT" _ 2 _ H);
    [unfold acknowledged_kinds; set_solver | reflexivity].
Defined.

Lemma get_recovery_action_aborts {W} (env : Env W) screenshot error_message
    task (s : State W) :
  no_usable_answer env ->
  match (get_recovery_action env screenshot error_message task s).1 with
  | Ret p => p_action p = Some (KindStr "ABORT")
  | Raise _ => True
  end.
Proof.
  intros H. unfold get_recovery_action, bind at 1, gets.
  unfold bind at 1.
  destruct (summarize_action_history s) as [[history | ?] s1]; [| done].
  unfold try_catch at 1, bind.
  match goal with
  | |- context [generate_content env ?prompt] =>
      specialize (H prompt (world s1))
  end.
  unfold call.
  destruct (generate_content env _ (world s1)) as [[response | ?] w];
    [| done].
  simpl in H. unfold parse_response, try_catch, bind, lift, decode.
  destruct (strip_fences (strip response)) as [json_text | e] eqn:E.
  - specialize (H json_text).
    destruct (json_loads env json_text) as [? | | p];
      [done | done | by destruct (H p)].
  - destruct e; done.
Qed.

(** X14. Without a usable answer of the model there is no recovery: after
    an error of the executor the loop is left (or an exception of the
    screenshot or of the history summary escapes), and no further action
    is executed. *)
Theorem recover_needs_an_answer {W} (env : Env W) (task : string)
    (st : ActionResult) (s : State W) :
  no_usable_answer env ->
  loop_left (recover env task st s).1
  /\ trace (recover env task st s).2 = trace s.
Proof.
  intros H. destruct (recover env task st s) as [o s'] eqn:E. cbn [fst snd].
  unfold recover in E. unfold bind at 1 in E.
  pose proof (preserves_take_screenshot env same_trace no_event s) as Ht.
  unfold same_trace in Ht.
  destruct (take_screenshot env s) as [[f | ?] s1]; simpl in Ht;
    [| by simplify_eq].
  unfold bind at 1 in E.
  pose proof (get_recovery_action_aborts env f (message st) task s1 H) as Hp.
  pose proof (preserves_get_recovery_action env same_trace no_event
                f (message st) task s1) as Hr.
  unfold same_trace in Hr.
  destruct (get_recovery_action env f (message st) task s1) as [[p | ?] s2];
    simpl in Hp, Hr; [| simplify_eq; split; [done | congruence]].
  unfold bind, action_of in E. rewrite Hp in E. cbn in E. unfold ret in E. simplify_eq.
  split; [done | congruence].
Qed.

Lemma recover_needs_an_answer_witness :
  no_usable_answer Banner.env
  /\ loop_left
       (recover Banner.env "find the price"
          (result ERROR (Text "No text provided for typing")) Banner.start).1
  /\ trace
       (recover Banner.env "find the price"
          (result ERROR (Text "No text provided for typing")) Banner.start).2
     = trace Banner.start.
Proof.
  assert (H : no_usable_answer Banner.env) by (intros prompt w; exact I).
  split; [exact H | apply recover_needs_an_answer, H].
Defined.

(** With the model unavailable the loop is left by [break]. *)
Example recover_without_model :
  recover Banner.env "find the price"
    (result ERROR (Text "No text provided for typing")) Banner.start
  = (Ret Break, set_screenshot_count 1 Banner.start).
Proof. reflexivity. Qed.

#[global] Instance same_history_frame {W} : Frame (@same_history W) any_event.
Proof.
  split; try by (intros; destruct s).
  split; [by intros s |].
  intros s1 s2 s3 H1 H2. unfold same_history in *. congruence.
Qed.

Lemma same_history_explored {W} (s : State W) x :
  same_history s (set_explored_urls ({[x]} ∪ explored_urls s) s).
Proof. by destruct s. Qed.

Lemma all_events e : ~ is_iteration e -> any_event e.
Proof. done. Qed.

(** What one iteration does to the history: nothing if an exception
    leaves it before the record is written, one record otherwise. *)
Lemma task_iteration_history {W} (env : Env W) task step retry (s : State W) :
  match (task_iteration env task step retry s).1 with
  | Ret _ =>
      exists entry,
        action_history (task_iteration env task step retry s).2
        = action_history s ++ [entry]
        /\ written_at step entry
  | Raise _ => True
  end.
Proof.
  destruct (task_iteration env task step retry s) as [o s'] eqn:E.
  cbn [fst snd]. destruct o as [c | e]; [| done].
  unfold task_iteration in E. unfold bind at 1 in E. unfold emit, modify in E.
  set (s0 := set_trace _ s) in E.
  assert (H0 : action_history s0 = action_history s) by by destruct s.
  unfold bind at 1 in E.
  pose proof (preserves_take_screenshot env same_history any_event s0) as H1.
  destruct (take_screenshot env s0) as [[filename | ?] s1]; [| done].
  unfold bind at 1 in E.
  pose proof (preserves_get_next_action env same_history any_event
                filename task step s1) as H2.
  destruct (get_next_action_from_gemini env filename task step s1)
    as [[next_action | ?] s2]; [| done].
  unfold bind at 1 in E. unfold action_of in E.
  destruct (p_action next_action) as [action |] eqn:Hp; [| done].
  unfold ret at 1 in E. unfold bind at 1 in E. unfold record_step, modify in E.
  set (s3 := set_action_history _ s2) in E.
  destruct action as [action |].
  2:{ (* no string under "action": the executor raises *)
      unfold act_on in E. cbn [kind_is] in E.
      unfold bind, execute_action in E. rewrite Hp in E. by cbn in E. }
  pose proof (steps_act_on env same_history any_event all_events
                same_history_explored task (KindStr action) next_action
                retry s3) as H4.
  rewrite E in H4. unfold same_history in *. simpl in H1, H2, H4.
  eexists. split; [| by eexists _, _, _].
  rewrite H4. subst s3. simpl. rewrite H2, H1. reflexivity.
Qed.

Lemma task_loop_history {W} (env : Env W) task fuel :
  forall step retry (s : State W) n s',
    task_loop env fuel task step retry s = (Ret (Some n), s') ->
    exists new,
      action_history s' = action_history s ++ new
      /\ n = step + length new
      /\ numbered_from step new.
Proof.
  induction fuel as [| fuel IH]; intros step retry s n s' E;
    cbn [task_loop] in E.
  - destruct (step <? max_steps); unfold ret in E; simplify_eq.
    exists []. rewrite app_nil_r. split; [done |]. split; [simpl; lia |].
    by intros i entry H.
  - destruct (step <? max_steps);
      [| unfold ret in E; simplify_eq; exists []; rewrite app_nil_r;
         split; [done |]; split; [simpl; lia | by intros i entry H]].
    unfold bind at 1 in E.
    pose proof (task_iteration_history env task (step + 1) retry s) as Hi.
    destruct (task_iteration env task (step + 1) retry s) as [[c | ?] s1];
      [| done].
    destruct Hi as (entry & Hh & Hw). cbn [snd] in Hh.
    assert (Hfirst : numbered_from step [entry]).
    { intros [| i] e He; simpl in He; [| done]. simplify_eq.
      by rewrite Nat.add_0_r. }
    destruct c as [retry' |].
    + apply IH in E as (new & Hn & -> & Hnum).
      exists (entry :: new). rewrite Hn, Hh, <- app_assoc.
      split; [done |]. split; [simpl; lia |].
      intros [| i] e He; simpl in He.
      * by apply (Hfirst 0).
      * apply Hnum in He. by replace (step + S i + 1) with (step + 1 + i + 1) by lia.
    + unfold ret in E. simplify_eq. exists [entry].
      split; [done |]. split; [simpl; lia | done].
Qed.

(** X15. A task that returns has appended exactly one record per step to
    the history: the number of steps it reports is the number of new
    records, the records carry the step numbers 1, 2, ... in this order,
    and the reported actions are the whole history, with the records of
    earlier tasks in front. *)
Theorem history_records_every_step {W} (env : Env W) (task : string)
    (s s' : State W) (res : TaskResult) :
  execute_task env task s = (Ret (Some res), s') ->
  exists new,
    action_history s' = action_history s ++ new
    /\ tr_actions res = action_history s'
    /\ tr_steps res = length new
    /\ numbered_from 0 new.
Proof.
  intros E. unfold execute_task in E. unfold bind at 1 in E.
  pose proof (preserves_needs_start_page same_history any_event s) as H0.
  destruct (needs_start_page s) as [[start | ?] s0]; [| done].
  unfold bind at 1 in E.
  match type of E with
  | (let (_, _) := ?m s0 in _) = _ =>
      assert (Hm : preserves same_history m);
        [| pose proof (Hm s0) as H1;
           destruct (m s0) as [[[] | ?] s1]; [| done]]
  end.
  { destruct start; [| apply preserves_ret; typeclasses eauto].
    apply preserves_bind; [typeclasses eauto | | intros ?].
    - apply (steps_navigate env same_history any_event all_events).
    - apply preserves_ret; typeclasses eauto. }
  unfold bind at 1 in E.
  destruct (task_loop env max_steps task 0 0 s1) as [[[n |] | ?] s2] eqn:E2;
    [| done | done].
  apply task_loop_history in E2 as (new & Hn & -> & Hnum).
  unfold bind at 1 in E.
  pose proof (preserves_generate_task_summary env same_history any_event
                task s2) as H3.
  destruct (generate_task_summary env task s2) as [[summary | ?] s3]; [| done].
  unfold bind, gets, ret in E. simplify_eq.
  unfold same_history in *. simpl in *.
  exists new. repeat split; [congruence | done].
Qed.

Lemma history_records_every_step_witness :
  exists res s',
    two_step_run = (Ret (Some res), s')
    /\ exists new,
         action_history s'
         = action_history (Demo.start [Ret "wait"; Ret "done"] false) ++ new
         /\ tr_actions res = action_history s'
         /\ tr_steps res = length new
         /\ numbered_from 0 new.
Proof.
  eexists _, _. split; [by vm_compute |].
  apply (history_records_every_step Demo.env "wait a second"
           (Demo.start [Ret "wait"; Ret "done"] false)).
  by vm_compute.
Defined.

Example two_steps_recorded : length (action_history two_step_run.2) = 2.
Proof. by vm_compute. Qed.

Lemma ask_next_action_without_action {W} (env : Env W) prompt (s : State W) :
  answers_without_action env ->
  exists p s',
    ask_next_action env prompt s = (Ret p, s') /\ p_action p = None.
Proof.
  intros H.
  destruct (H prompt (world s)) as (response & w' & json_text & p & Hg & Hf & Hj & Hp).
  exists p, (set_world w' s). split; [| done].
  unfold ask_next_action, try_catch, bind, call. rewrite Hg.
  unfold parse_response, bind, lift, decode. rewrite Hf, Hj. done.
Qed.

(** X16. The key ["action"] of the planner's answer is read without a
    default.  When the model answers with JSON objects that lack it, the
    first iteration raises before anything is recorded or executed: the
    task returns no result, the exception escapes [execute_task], and the
    history is as it was. *)
Theorem missing_action_escapes {W} (env : Env W) (task : string) (s : State W) :
  answers_without_action env ->
  exists e s',
    execute_task env task s = (Raise e, s')
    /\ action_history s' = action_history s.
Proof.
  intros H. unfold execute_task. unfold bind at 1.
  pose proof (preserves_needs_start_page same_history any_event s) as H0.
  destruct (needs_start_page s) as [[start | ?] s0]; [| by eexists _, _].
  unfold bind at 1.
  match goal with
  | |- context [let (_, _) := ?m s0 in _] =>
      assert (Hm : preserves same_history m);
        [| pose proof (Hm s0) as H1;
           destruct (m s0) as [[[] | ?] s1];
           [| eexists _, _; split; [done |];
              unfold same_history in *; simpl in *; congruence]]
  end.
  { destruct start; [| apply preserves_ret; typeclasses eauto].
    apply preserves_bind; [typeclasses eauto | | intros ?].
    - apply (steps_navigate env same_history any_event all_events).
    - apply preserves_ret; typeclasses eauto. }
  unfold same_history in *. simpl in H0, H1.
  unfold bind at 1. unfold max_steps at 1. cbn [task_loop].
  change (0 <? max_steps) with true. cbv iota. unfold bind at 1.
  unfold task_iteration. unfold bind at 1. unfold emit, modify.
  set (s2 := set_trace _ s1).
  assert (H2 : action_history s2 = action_history s1) by by destruct s1.
  unfold bind at 1.
  pose proof (preserves_take_screenshot env same_history any_event s2) as H3.
  destruct (take_screenshot env s2) as [[filename | ?] s3]; simpl in H3;
    [| eexists _, _; split; [done | unfold same_history in *; congruence]].
  unfold bind at 1. unfold get_next_action_from_gemini. unfold bind at 1.
  pose proof (preserves_next_action_prompt env same_history any_event
                filename task (0 + 1) s3) as H4.
  destruct (next_action_prompt env filename task (0 + 1) s3)
    as [[prompt | ?] s4]; simpl in H4;
    [| eexists _, _; split; [done | unfold same_history in *; congruence]].
  pose proof (preserves_ask_next_action env same_history any_event prompt s4)
    as H5.
  destruct (ask_next_action_without_action env prompt s4 H)
    as (p & s5 & E5 & Hp).
  rewrite E5 in H5 |- *. simpl in H5.
  unfold bind at 1, action_of. rewrite Hp. unfold raise.
  eexists _, _. split; [done |]. unfold same_history in *. congruence.
Qed.

Lemma missing_action_escapes_witness :
  answers_without_action
    (answering Banner.env "{}" (Object (mkProposal None None None None)))
  /\ exists e s',
       execute_task
         (answering Banner.env "{}" (Object (mkProposal None None None None)))
         "find the price" Banner.start = (Raise e, s')
       /\ action_history s' = action_history Banner.start.
Proof.
  assert (H : answers_without_action
                (answering Banner.env "{}"
                   (Object (mkProposal None None None None)))).
  { intros prompt w. by eexists _, _, _, _. }
  split; [exact H | apply missing_action_escapes, H].
Defined.

(** The exception is the [KeyError] of the missing key. *)
Example missing_action_is_key_error :
  (execute_task
     (answering Banner.env "{}" (Object (mkProposal None None None None)))
     "find the price" Banner.start).1
  = Raise (KeyError "action").
Proof. by vm_compute. Qed.


Lemma summarize_written_entries {W} (entries : list (gmap string Value))
    (s : State W) :
  Forall written entries ->
  summarize_entries entries s = (Ret (map step_and_kind entries), s).
Proof.
  induction 1 as [| entry entries (step & a & d & f & ->) _ IH]; [done |].
  cbn [summarize_entries].
  change (history_entry step (KindStr a) d f !! "action") with (Some (VStr a)).
  change (history_entry step (KindStr a) d f !! "message") with (@None Value).
  change (history_entry step (KindStr a) d f !! "step") with (Some (VNum step)).
  cbn [default from_option id]. unfold bind. by rewrite IH.
Qed.

Lemma length_last_n {A} n (l : list A) : length (last_n n l) = Nat.min n (length l).
Proof. unfold last_n. rewrite length_drop. lia. Qed.

(** X17. On a history written by the control loop the summary for the
    prompts never fails and changes nothing; it lists the last five
    records at most, in order, and the text of each line is the kind of
    the action: the records hold no ["message"], so the message of the
    planner is never shown. *)
Theorem summary_of_written_history {W} (s : State W) :
  Forall written (action_history s) ->
  summarize_action_history s
  = (Ret (match action_history s with
          | [] => NoActionsYet
          | _ => RecentSteps (map step_and_kind (last_n 5 (action_history s)))
          end), s)
  /\ length (last_n 5 (action_history s)) = Nat.min 5 (length (action_history s))
  /\ Forall (fun entry => entry !! "message" = None
                          /\ exists step a,
                               step_and_kind entry = (VNum step, VStr a))
       (action_history s).
Proof.
  intros H. split; [| split].
  - unfold summarize_action_history, bind, gets.
    destruct (action_history s) as [| entry entries] eqn:E; [done |].
    rewrite summarize_written_entries; [done |].
    unfold last_n. apply Forall_drop. exact H.
  - apply length_last_n.
  - eapply Forall_impl; [exact H |].
    intros entry (step & a & d & f & ->). split; [reflexivity |].
    by exists step, a.
Qed.

Lemma summary_of_written_history_witness :
  Forall written (action_history two_step_run.2)
  /\ summarize_action_history two_step_run.2
     = (Ret (RecentSteps [(VNum 1, VStr "WAIT"); (VNum 2, VStr "TASK_COMPLETE")]),
        two_step_run.2).
Proof.
  assert (H : Forall written (action_history two_step_run.2)).
  { change (action_history two_step_run.2)
      with [history_entry 1 (KindStr "WAIT") (DetailsObject (wait_details 1))
              "screenshot_1";
            history_entry 2 (KindStr "TASK_COMPLETE")
              (DetailsObject no_details) "screenshot_2"].
    repeat constructor; by eexists _, _, _, _. }
  split; [exact H |].
  destruct (summary_of_written_history two_step_run.2 H) as [-> _].
  reflexivity.
Defined.
